(** * AI File Namer: the service worker's helpers and the popup's age label

    A shallow embedding of [background.js] (sanitizeFilename, getExtension,
    getExtensionFromMime, isImageFile, logRename, the getHistory message and
    the onDeterminingFilename listener) and of the popup's [timeAgo].

    JavaScript strings are sequences of UTF-16 code units; a code unit is a
    natural number [N].  Regular expression literals are kept as data and run
    by a small backtracking matcher that follows the ECMAScript semantics of
    the constructs the source uses: character classes, greedy bounded
    repetition of a class, the assertions [^] and [$], alternation, the flags
    [g] and [i]. *)

From Stdlib Require Import NArith ZArith String Ascii DecimalString.
From stdpp Require Import base option list gmap strings.

(** ** Strings and character classes *)

Module JS.

Definition jsstring : Type := list N.

(** A string literal of the source (ASCII only) as code units. *)
Definition lit (s : string) : jsstring :=
  List.map N_of_ascii (list_ascii_of_string s).

Definition in_range (lo hi c : N) : bool := ((lo <=? c) && (c <=? hi))%N.

Definition isUpper (c : N) : bool := in_range 65 90 c.
Definition isLower (c : N) : bool := in_range 97 122 c.
Definition isDigit (c : N) : bool := in_range 48 57 c.
Definition isHyphen (c : N) : bool := (c =? 45)%N.
Definition isDot (c : N) : bool := (c =? 46)%N.
Definition isUnderscore (c : N) : bool := (c =? 95)%N.

(** [\w] without the [u] and [i] flags: [A-Za-z0-9_]. *)
Definition isWord (c : N) : bool :=
  isUpper c || isLower c || isDigit c || isUnderscore c.

(** [\s], which is also the set String.prototype.trim strips: WhiteSpace and
    LineTerminator of the language specification. *)
Definition isWhiteSpace (c : N) : bool :=
  in_range 9 13 c || (c =? 32)%N || (c =? 160)%N || (c =? 5760)%N
  || in_range 8192 8202 c || (c =? 8232)%N || (c =? 8233)%N
  || (c =? 8239)%N || (c =? 8287)%N || (c =? 12288)%N || (c =? 65279)%N.

(** The class of the first replace: backtick, double quote, single quote. *)
Definition isQuote (c : N) : bool := (c =? 96)%N || (c =? 34)%N || (c =? 39)%N.

(** The class [\s_]. *)
Definition isSpaceOrUnderscore (c : N) : bool := isWhiteSpace c || isUnderscore c.

(** The class [a-z0-9-] as written, before the [i] flag is applied. *)
Definition isLowerAlnumHyphen (c : N) : bool := isLower c || isDigit c || isHyphen c.

Definition asciiLower (c : N) : N := if isUpper c then (c + 32)%N else c.
Definition asciiUpper (c : N) : N := if isLower c then (c - 32)%N else c.

(** A class of ASCII members under the [i] flag (no [u] flag).  Canonicalize
    upper-cases a code unit but never maps a code unit at or above 128 to one
    below 128, so a non-ASCII code unit matches no ASCII member; an ASCII code
    unit matches when its other case is a member. *)
Definition ignoreCase (p : N → bool) (c : N) : bool :=
  (c <? 128)%N && (p c || p (asciiLower c) || p (asciiUpper c)).

(** The class [^a-z0-9-] under the [i] flag. *)
Definition isNotAlnumHyphenI (c : N) : bool := negb (ignoreCase isLowerAlnumHyphen c).

(** ** Regular expressions *)

(** One term of a pattern: a character class repeated greedily between [lo]
    and [hi] times ([hi = None] is unbounded; a single class is [{1,1}]), or
    one of the assertions [^] and [$] (no [m] flag). *)
Inductive atom : Type :=
  | Cls (p : N → bool) (lo : nat) (hi : option nat)
  | Bol
  | Eol.

(** A pattern is a list of alternatives, each a sequence of terms. *)
Definition regex : Type := list (list atom).

Definition can_take (hi : option nat) : bool :=
  match hi with Some 0 => false | _ => true end.

(** Greedy repetition with backtracking: take one more code unit when the
    class and the upper bound allow and the rest of the pattern then matches;
    otherwise stop here, if the lower bound is met.  [k] is the rest of the
    pattern; the result is the number of code units matched.  [bol] tells
    whether the position is the start of the input. *)
Fixpoint rep (p : N → bool) (lo : nat) (hi : option nat)
    (k : bool → jsstring → option nat) (bol : bool) (s : jsstring) : option nat :=
  let stop := match lo with 0 => k bol s | S _ => None end in
  match s with
  | c :: s' =>
      if p c && can_take hi then
        match rep p (pred lo) (pred <$> hi) k false s' with
        | Some n => Some (S n)
        | None => stop
        end
      else stop
  | [] => stop
  end.

Fixpoint match_seq (r : list atom) (bol : bool) (s : jsstring) : option nat :=
  match r with
  | [] => Some 0
  | Bol :: r' => if bol then match_seq r' bol s else None
  | Eol :: r' => match s with [] => match_seq r' bol s | _ :: _ => None end
  | Cls p lo hi :: r' => rep p lo hi (match_seq r') bol s
  end.

(** Alternatives are tried left to right. *)
Fixpoint match_here (r : regex) (bol : bool) (s : jsstring) : option nat :=
  match r with
  | [] => None
  | a :: r' =>
      match match_seq a bol s with
      | Some n => Some n
      | None => match_here r' bol s
      end
  end.

(** The first match: the least start index (up to and including the end of
    the input) at which the pattern matches, with the length matched. *)
Fixpoint search (r : regex) (bol : bool) (s : jsstring) : option (nat * nat) :=
  match match_here r bol s with
  | Some n => Some (0, n)
  | None =>
      match s with
      | [] => None
      | _ :: s' =>
          match search r false s' with
          | Some (i, n) => Some (S i, n)
          | None => None
          end
      end
  end.

(** [s.replace(/r/, repl)]: the first match is replaced.  The replacement
    strings of the source contain no [$], so they are inserted as they are. *)
Definition replace (r : regex) (repl : jsstring) (s : jsstring) : jsstring :=
  match search r true s with
  | Some (i, n) => take i s ++ repl ++ drop (i + n) s
  | None => s
  end.

(** [s.replace(/r/g, repl)]: every match, left to right, each search
    resuming where the previous match ended (one code unit further after an
    empty match).  [skip] counts the code units of the current match that are
    still to be passed over. *)
Fixpoint replace_from (r : regex) (repl : jsstring) (skip : nat) (bol : bool)
    (s : jsstring) : jsstring :=
  match skip, s with
  | S k, _ :: s' => replace_from r repl k false s'
  | S _, [] => []
  | 0, _ =>
      match match_here r bol s with
      | Some (S n) =>
          repl ++ match s with
                  | [] => []
                  | _ :: s' => replace_from r repl n false s'
                  end
      | Some 0 =>
          repl ++ match s with
                  | [] => []
                  | c :: s' => c :: replace_from r repl 0 false s'
                  end
      | None =>
          match s with
          | [] => []
          | c :: s' => c :: replace_from r repl 0 false s'
          end
      end
  end.

Definition replaceAll (r : regex) (repl : jsstring) (s : jsstring) : jsstring :=
  replace_from r repl 0 true s.

(** [s.match(/r/)] without the [g] flag: the matched substring, or null. *)
Definition match_ (r : regex) (s : jsstring) : option jsstring :=
  match search r true s with
  | Some (i, n) => Some (take n (drop i s))
  | None => None
  end.

(** ** String.prototype methods *)

Fixpoint trimStart (s : jsstring) : jsstring :=
  match s with
  | c :: s' => if isWhiteSpace c then trimStart s' else s
  | [] => []
  end.

Definition trimEnd (s : jsstring) : jsstring := rev (trimStart (rev s)).

Definition trim (s : jsstring) : jsstring := trimEnd (trimStart s).

(** [toLowerCase] on the Basic Latin block; code units outside the block are
    left as they are.  The strings the service worker lower-cases are ASCII
    already (in sanitizeFilename and getExtension) or are only tested for an
    ASCII suffix afterwards (in isImageFile). *)
Definition toLowerCase (s : jsstring) : jsstring := List.map asciiLower s.

(** [s.substring(start, end)] for non-negative integer arguments: both are
    clamped to the length and swapped when out of order. *)
Definition substring (from to : nat) (s : jsstring) : jsstring :=
  let a := from `min` length s in
  let b := to `min` length s in
  take (a `max` b - a `min` b) (drop (a `min` b) s).

Fixpoint startsWith (s pre : jsstring) : bool :=
  match pre, s with
  | [], _ => true
  | p :: pre', c :: s' => (c =? p)%N && startsWith s' pre'
  | _ :: _, [] => false
  end.

Definition endsWith (s suf : jsstring) : bool := startsWith (rev s) (rev suf).

(** Number-to-string conversion of an integer (below 10^21 in magnitude, where
    the language prints all digits). *)
Definition numberToString (z : Z) : jsstring :=
  lit (NilEmpty.string_of_int (Z.to_int z)).

End JS.

(** ** background.js *)

Module Background.
Import JS.

(** What an expression of the service worker can evaluate to: a string,
    undefined, or a built-in function or object (truthy, not a string). *)
Inductive value : Type :=
  | VUndefined
  | VString (s : jsstring)
  | VNative (name : string).

(** [v || d]: the empty string and undefined are falsy. *)
Definition orElse (s d : jsstring) : jsstring :=
  match s with [] => d | _ :: _ => s end.

Definition truthy (v : value) : bool :=
  match v with
  | VUndefined => false
  | VString [] => false
  | VString (_ :: _) => true
  | VNative _ => true
  end.

Definition vOrElse (v d : value) : value := if truthy v then v else d.

(** [x || ""] for [x] a string or undefined. *)
Definition orEmpty (x : option jsstring) : jsstring := orElse (default [] x) [].

(** The properties every object literal inherits from Object.prototype. *)
Definition Object_prototype : gmap jsstring value :=
  list_to_map ((λ k, (lit k, VNative k)) <$>
    ["constructor"; "__defineGetter__"; "__defineSetter__"; "hasOwnProperty";
     "__lookupGetter__"; "__lookupSetter__"; "isPrototypeOf";
     "propertyIsEnumerable"; "toString"; "valueOf"; "__proto__";
     "toLocaleString"]%string).

(** [obj[key]] on an object literal with own properties [own]: the own
    property, else the inherited one, else undefined. *)
Definition getProperty (own : gmap jsstring value) (key : jsstring) : value :=
  match own !! key with
  | Some v => v
  | None => default VUndefined (Object_prototype !! key)
  end.

(** The property key a string-or-undefined subscript converts to. *)
Definition toPropertyKey (x : option jsstring) : jsstring :=
  default (lit "undefined") x.

Definition IMAGE_EXTENSIONS : list jsstring :=
  lit <$> [".jpg"; ".jpeg"; ".png"; ".gif"; ".webp"; ".bmp"; ".svg"]%string.

(** The regular expression literals of the file, in the order of their use:
    the class of the three quote characters, with [g];
    [/\.\w{2,4}$/]; [/[\s_]+/g]; [/[^a-z0-9-]/gi]; [/-{2,}/g];
    [/^-+|-+$/g]; [/-+$/]; and [/(\.\w{2,5})$/] of getExtension. *)
Definition re_quotes : regex := [[Cls isQuote 1 (Some 1)]].
Definition re_ai_extension : regex :=
  [[Cls isDot 1 (Some 1); Cls isWord 2 (Some 4); Eol]].
Definition re_spaces : regex := [[Cls isSpaceOrUnderscore 1 None]].
Definition re_not_alnum : regex := [[Cls isNotAlnumHyphenI 1 (Some 1)]].
Definition re_hyphens : regex := [[Cls isHyphen 2 None]].
Definition re_edge_hyphens : regex :=
  [[Bol; Cls isHyphen 1 None]; [Cls isHyphen 1 None; Eol]].
Definition re_trailing_hyphens : regex := [[Cls isHyphen 1 None; Eol]].
Definition re_file_extension : regex :=
  [[Cls isDot 1 (Some 1); Cls isWord 2 (Some 5); Eol]].

Definition isImageFile (mime filename : jsstring) : bool :=
  if negb (bool_decide (mime = [])) && startsWith mime (lit "image/") then true
  else
    let lower := toLowerCase (orElse filename []) in
    existsb (λ ext, endsWith lower ext) IMAGE_EXTENSIONS.

Definition sanitizeFilename (name : jsstring) : jsstring :=
  let clean := trim (replaceAll re_quotes [] name) in
  let clean := replace re_ai_extension [] clean in
  let clean := replaceAll re_spaces (lit "-") clean in
  let clean := replaceAll re_not_alnum [] clean in
  let clean := toLowerCase clean in
  let clean := replaceAll re_hyphens (lit "-") clean in
  let clean := replaceAll re_edge_hyphens [] clean in
  let clean :=
    if 60 <? length clean
    then replace re_trailing_hyphens [] (substring 0 60 clean)
    else clean in
  orElse clean (lit "unnamed-file").

Definition getExtensionFromMime (mime : option jsstring) : value :=
  let map : gmap jsstring value :=
    list_to_map
      [(lit "image/jpeg", VString (lit ".jpg"));
       (lit "image/png", VString (lit ".png"));
       (lit "image/gif", VString (lit ".gif"));
       (lit "image/webp", VString (lit ".webp"));
       (lit "image/bmp", VString (lit ".bmp"));
       (lit "image/svg+xml", VString (lit ".svg"));
       (lit "image/x-icon", VString (lit ".ico"));
       (lit "image/tiff", VString (lit ".tiff"))] in
  vOrElse (getProperty map (toPropertyKey mime)) (VString (lit ".png")).

(** The capture group spans the whole match: [$] matches no code unit. *)
Definition getExtension (filename mime : option jsstring) : value :=
  match match_ re_file_extension (orEmpty filename) with
  | Some m => VString (toLowerCase m)
  | None => getExtensionFromMime mime
  end.

(** *** The rename history in chrome.storage.local *)

Record RenameEvent : Type := mkEvent {
  original : jsstring;
  renamed : jsstring;
  timestamp : Z
}.

(** [now] is the reading of Date.now() at the call.  The call is taken as a
    whole: its read and its write are not interleaved with another call. *)
Definition logRename (now : Z) (originalName newName : jsstring)
    (local : gmap string (list RenameEvent)) : gmap string (list RenameEvent) :=
  let renameHistory := default [] (local !! "renameHistory"%string) in
  let renameHistory := mkEvent originalName newName now :: renameHistory in
  let renameHistory :=
    if 50 <? length renameHistory then take 50 renameHistory else renameHistory in
  <["renameHistory"%string := renameHistory]> local.

(** The answer to the popup's getHistory message. *)
Definition getHistory (local : gmap string (list RenameEvent)) : list RenameEvent :=
  default [] (local !! "renameHistory"%string).

(** *** The download listener *)

Record DownloadItem : Type := mkItem {
  url : jsstring;
  filename : jsstring;
  mime : jsstring
}.

Record Settings : Type := mkSettings { enabled : bool; apiKey : jsstring }.

(** What the request to the model can come to: fetch rejects, the status is
    not ok, or a body arrives whose first candidate text is [text]. *)
Inductive response : Type :=
  | NetworkError
  | HttpError
  | Body (text : option jsstring).

(** The collaborators of one download: stored settings, the result of
    fetchImageAsBase64 on a url (null when it fails), the model's answer,
    the clock, and how the engine prints a built-in value. *)
Record Host : Type := mkHost {
  settings : Settings;
  fetchImageAsBase64 : jsstring → option (jsstring * jsstring);
  generate : jsstring → jsstring → jsstring → response;
  clock : Z;
  nativeToString : string → jsstring
}.

Inductive outcome (A : Type) : Type :=
  | Throws
  | Returns (a : A).
Arguments Throws {A}.
Arguments Returns {A} a.

(** The calls the claims speak of, in the order they are made. *)
Inductive call : Type :=
  | Suggest (replacement : option jsstring)
  | CallSanitizeFilename (text : jsstring)
  | CallGetExtension (filename mime : jsstring)
  | CallLogRename (originalName newName : jsstring)
  | SetBadgeText (text : jsstring).

Definition toString (h : Host) (v : value) : jsstring :=
  match v with
  | VUndefined => lit "undefined"
  | VString s => s
  | VNative name => nativeToString h name
  end.

(** The file name, or null; the second component tells whether
    sanitizeFilename was reached and on which text. *)
Definition getAIFilename (h : Host) (base64Data mimeType key : jsstring)
    : outcome (option jsstring) * list call :=
  match generate h base64Data mimeType key with
  | NetworkError => (Throws, [])
  | HttpError => (Returns None, [])
  | Body None => (Returns None, [])
  | Body (Some []) => (Returns None, [])
  | Body (Some (c :: t)) =>
      let text := trim (c :: t) in
      (Returns (Some (sanitizeFilename text)), [CallSanitizeFilename text])
  end.

Definition handleDownloadRename (h : Host) (downloadItem : DownloadItem)
    (local : gmap string (list RenameEvent))
    : list call * gmap string (list RenameEvent) :=
  if negb (enabled (settings h)) || bool_decide (apiKey (settings h) = [])
  then ([Suggest None], local)
  else
    match fetchImageAsBase64 h (url downloadItem) with
    | None => ([Suggest None], local)
    | Some (mimeType, data) =>
        match getAIFilename h data mimeType (apiKey (settings h)) with
        | (Throws, calls) => (calls ++ [Suggest None], local)
        | (Returns None, calls) => (calls ++ [Suggest None], local)
        | (Returns (Some []), calls) => (calls ++ [Suggest None], local)
        | (Returns (Some (c :: n)), calls) =>
            let aiName := c :: n in
            let ext := getExtension (Some (filename downloadItem))
                                    (Some (mime downloadItem)) in
            let newFilename := aiName ++ toString h ext in
            (calls ++
             [CallGetExtension (filename downloadItem) (mime downloadItem);
              CallLogRename (filename downloadItem) newFilename;
              SetBadgeText (lit "AI");
              Suggest (Some newFilename)],
             logRename (clock h) (filename downloadItem) newFilename local)
        end
    end.

(** The listener: the calls made, the store afterwards, and whether it
    returned true (the suggestion is to come later). *)
Definition onDeterminingFilename (h : Host) (downloadItem : DownloadItem)
    (local : gmap string (list RenameEvent))
    : list call * gmap string (list RenameEvent) * bool :=
  let mime := orElse (mime downloadItem) [] in
  let filename := orElse (filename downloadItem) [] in
  if negb (isImageFile mime filename) then ([Suggest None], local, false)
  else (handleDownloadRename h downloadItem local, true).

End Background.

(** ** The popup *)

Module Popup.
Import JS.

(** [now] is the reading of Date.now() inside the call.  Time stamps are
    whole milliseconds in the range where the numbers of the language are
    exact integers; there Math.floor of a quotient is the floor division of
    [Z], also for a negative age. *)
Definition timeAgo (now timestamp : Z) : jsstring :=
  let seconds := ((now - timestamp) / 1000)%Z in
  if (seconds <? 60)%Z then lit "Just now"
  else
    let minutes := (seconds / 60)%Z in
    if (minutes <? 60)%Z then numberToString minutes ++ lit "m ago"
    else
      let hours := (minutes / 60)%Z in
      if (hours <? 24)%Z then numberToString hours ++ lit "h ago"
      else
        let days := (hours / 24)%Z in
        numberToString days ++ lit "d ago".

End Popup.

(** ** The rules of the specification, in its own words *)

Module Spec.
Import JS.

(** Every run of code units of class [p] becomes one hyphen.  [inRun] tells
    whether the previous code unit belonged to the run being replaced. *)
Fixpoint squeeze (p : N → bool) (inRun : bool) (s : jsstring) : jsstring :=
  match s with
  | [] => []
  | c :: s' =>
      if p c then (if inRun then squeeze p true s' else 45%N :: squeeze p true s')
      else c :: squeeze p false s'
  end.

Fixpoint dropLeading (p : N → bool) (s : jsstring) : jsstring :=
  match s with
  | c :: s' => if p c then dropLeading p s' else s
  | [] => []
  end.

Fixpoint dropTrailing (p : N → bool) (s : jsstring) : jsstring :=
  match s with
  | [] => []
  | c :: s' =>
      match dropTrailing p s' with
      | [] => if p c then [] else [c]
      | r => c :: r
      end
  end.

(** [w] is what follows the dot of an extension: between [lo] and [hi] word
    characters, up to the end. *)
Definition isExtensionTail (lo hi : nat) (w : jsstring) : bool :=
  (lo <=? length w) && (length w <=? hi) && forallb isWord w.

(** The trailing dot-extension of [s], if it has one. *)
Fixpoint extensionOf (lo hi : nat) (s : jsstring) : option jsstring :=
  match s with
  | [] => None
  | c :: s' =>
      if isDot c && isExtensionTail lo hi s' then Some s else extensionOf lo hi s'
  end.

Fixpoint dropExtension (lo hi : nat) (s : jsstring) : jsstring :=
  match s with
  | [] => []
  | c :: s' =>
      if isDot c && isExtensionTail lo hi s' then [] else c :: dropExtension lo hi s'
  end.

Definition isAsciiLetter (c : N) : bool := isUpper c || isLower c.

(** Step 1: strip backtick, double-quote, single-quote; trim white space. *)
Definition step1 (s : jsstring) : jsstring :=
  trim (List.filter (λ c, negb (isQuote c)) s).

(** Step 2: remove a trailing dot-extension of 2 to 4 word characters. *)
Definition step2 (s : jsstring) : jsstring := dropExtension 2 4 s.

(** Step 3: runs of white space or underscore become a single hyphen. *)
Definition step3 (s : jsstring) : jsstring := squeeze isSpaceOrUnderscore false s.

(** Step 4: drop what is not an ASCII letter, a digit or a hyphen. *)
Definition step4 (s : jsstring) : jsstring :=
  List.filter (λ c, isAsciiLetter c || isDigit c || isHyphen c) s.

(** Step 5: lower-case. *)
Definition step5 (s : jsstring) : jsstring := toLowerCase s.

(** Step 6: runs of two or more hyphens become one. *)
Definition step6 (s : jsstring) : jsstring := squeeze isHyphen false s.

(** Step 7: trim leading and trailing hyphens. *)
Definition step7 (s : jsstring) : jsstring :=
  dropTrailing isHyphen (dropLeading isHyphen s).

(** Step 8: truncate to 60; strip the hyphen the truncation may leave last. *)
Definition step8 (s : jsstring) : jsstring :=
  let t := take 60 s in
  match last t with
  | Some c => if isHyphen c then take (length t - 1) t else t
  | None => t
  end.

Definition steps (s : jsstring) : jsstring :=
  step8 (step7 (step6 (step5 (step4 (step3 (step2 (step1 s))))))).

(** The edge case: an empty result is replaced by the fallback. *)
Definition sanitize (s : jsstring) : jsstring :=
  match steps s with
  | [] => lit "unnamed-file"
  | c :: r => c :: r
  end.

(** The result guarantee: the pattern [^[a-z0-9-]*$]. *)
Definition matchesSafeName (s : jsstring) : bool := forallb isLowerAlnumHyphen s.

Definition allWhiteSpace (s : jsstring) : bool := forallb isWhiteSpace s.
Definition allHyphens (s : jsstring) : bool := forallb isHyphen s.

(** No two hyphens side by side. *)
Fixpoint noDoubleHyphen (s : jsstring) : bool :=
  match s with
  | [] => true
  | c :: s' =>
      match s' with
      | c' :: _ => negb (isHyphen c && isHyphen c')
      | [] => true
      end && noDoubleHyphen s'
  end.

(** The shape every result of the sanitizer has. *)
Definition wellFormedName (t : jsstring) : Prop :=
  matchesSafeName t = true ∧ noDoubleHyphen t = true
  ∧ dropLeading isHyphen t = t ∧ dropTrailing isHyphen t = t
  ∧ length t ≤ 60 ∧ t ≠ [].

End Spec.

(** ** Auxiliary definitions for the statements *)

Module Run.
Import JS Background Spec.

(** *** What the patterns of the source match, as plain functions *)

(** The length of the run of class [p] at the start of [s]. *)
Fixpoint runLength (p : N → bool) (s : jsstring) : nat :=
  match s with
  | c :: s' => if p c then S (runLength p s') else 0
  | [] => 0
  end.

(** [s] up to its first suffix that passes [T]. *)
Fixpoint cutAt (T : jsstring → bool) (s : jsstring) : jsstring :=
  if T s then []
  else match s with [] => [] | c :: s' => c :: cutAt T s' end.

(** The first suffix of [s] that passes [T], the longest first. *)
Fixpoint suffixAt (T : jsstring → bool) (s : jsstring) : option jsstring :=
  if T s then Some s
  else match s with [] => None | _ :: s' => suffixAt T s' end.

Definition onlyHyphens (s : jsstring) : bool :=
  forallb isHyphen s && (1 <=? length s).

Definition startsExtension (lo hi : nat) (s : jsstring) : bool :=
  match s with
  | c :: s' => isDot c && isExtensionTail lo hi s'
  | [] => false
  end.

(** *** Points of the source and series of calls *)

(** The value of [clean] in sanitizeFilename when the length limit is
    reached, that is after its first seven assignments. *)
Definition cleanBeforeLimit (name : jsstring) : jsstring :=
  let clean := trim (replaceAll re_quotes [] name) in
  let clean := replace re_ai_extension [] clean in
  let clean := replaceAll re_spaces (lit "-") clean in
  let clean := replaceAll re_not_alnum [] clean in
  let clean := toLowerCase clean in
  let clean := replaceAll re_hyphens (lit "-") clean in
  replaceAll re_edge_hyphens [] clean.

(** The value of [clean] in sanitizeFilename when it returns. *)
Definition cleanAtReturn (name : jsstring) : jsstring :=
  let clean := cleanBeforeLimit name in
  if 60 <? length clean
  then replace re_trailing_hyphens [] (substring 0 60 clean)
  else clean.

(** One call of the record operation: the clock reading and the two names. *)
Record recordCall : Type := mkCall {
  callTime : Z;
  callOriginal : jsstring;
  callRenamed : jsstring
}.

Definition eventOf (c : recordCall) : RenameEvent :=
  mkEvent (callOriginal c) (callRenamed c) (callTime c).

(** Sequential calls, the first of the list first. *)
Fixpoint recordAll (calls : list recordCall)
    (local : gmap string (list RenameEvent)) : gmap string (list RenameEvent) :=
  match calls with
  | [] => local
  | c :: rest =>
      recordAll rest (logRename (callTime c) (callOriginal c) (callRenamed c) local)
  end.

(** Clock readings that never go back from one call to the next. *)
Definition nonDecreasing (calls : list recordCall) : Prop :=
  ∀ i j a b, i ≤ j → calls !! i = Some a → calls !! j = Some b →
    (callTime a ≤ callTime b)%Z.

(** Most recent first. *)
Definition newestFirst (h : list RenameEvent) : Prop :=
  ∀ i j a b, i ≤ j → h !! i = Some a → h !! j = Some b →
    (timestamp b ≤ timestamp a)%Z.

Definition callsSanitizer (c : call) : bool :=
  match c with CallSanitizeFilename _ => true | _ => false end.
Definition callsResolver (c : call) : bool :=
  match c with CallGetExtension _ _ => true | _ => false end.
Definition callsRecord (c : call) : bool :=
  match c with CallLogRename _ _ => true | _ => false end.

(** The eight rows of the mime table of getExtensionFromMime. *)
Definition mimeRows : list (jsstring * jsstring) :=
  [(lit "image/jpeg", lit ".jpg"); (lit "image/png", lit ".png");
   (lit "image/gif", lit ".gif"); (lit "image/webp", lit ".webp");
   (lit "image/bmp", lit ".bmp"); (lit "image/svg+xml", lit ".svg");
   (lit "image/x-icon", lit ".ico"); (lit "image/tiff", lit ".tiff")].

(** The test input of the specification: a quoted name with an extension. *)
Definition goldenInput : jsstring :=
  [34%N] ++ lit "Golden_Retriever Park!!" ++ [34%N] ++ lit ".png".

(** Sixty calls, one per second. *)
Definition sixtyCalls : list recordCall :=
  (λ i, mkCall (1000 * Z.of_nat i) (lit "download.png") (lit "renamed.png"))
    <$> seq 1 60.

(** A download that is not an image. *)
Definition pdfDownload : DownloadItem :=
  mkItem (lit "https://example.org/report.pdf") (lit "report.pdf")
         (lit "application/pdf").

Definition idleHost : Host :=
  mkHost (mkSettings true (lit "key")) (λ _, None) (λ _ _ _, HttpError) 0
         (λ _, []).

End Run.

(** ** Matches with capture groups *)

Module Groups.
Import JS.

(** The matcher of [JS], reporting for each term of the pattern how many
    code units it took (none for an assertion).  A capture group that
    encloses one term is the text that term took. *)
Definition bump (r : option (list nat)) : option (list nat) :=
  match r with
  | Some (n :: ns) => Some (S n :: ns)
  | _ => None
  end.

Fixpoint rep_terms (p : N → bool) (lo : nat) (hi : option nat)
    (k : bool → jsstring → option (list nat)) (bol : bool) (s : jsstring)
    : option (list nat) :=
  let stop := match lo with 0 => cons 0 <$> k bol s | S _ => None end in
  match s with
  | c :: s' =>
      if p c && can_take hi then
        match bump (rep_terms p (pred lo) (pred <$> hi) k false s') with
        | Some r => Some r
        | None => stop
        end
      else stop
  | [] => stop
  end.

Fixpoint match_terms (r : list atom) (bol : bool) (s : jsstring)
    : option (list nat) :=
  match r with
  | [] => Some []
  | Bol :: r' => if bol then cons 0 <$> match_terms r' bol s else None
  | Eol :: r' =>
      match s with
      | [] => cons 0 <$> match_terms r' bol s
      | _ :: _ => None
      end
  | Cls p lo hi :: r' => rep_terms p lo hi (match_terms r') bol s
  end.

(** The first match: its start index and the lengths of its terms. *)
Fixpoint search_terms (r : list atom) (bol : bool) (s : jsstring)
    : option (nat * list nat) :=
  match match_terms r bol s with
  | Some lens => Some (0, lens)
  | None =>
      match s with
      | [] => None
      | _ :: s' =>
          match search_terms r false s' with
          | Some (i, lens) => Some (S i, lens)
          | None => None
          end
      end
  end.

(** The text taken by term number [k] of a match that starts at [i]. *)
Definition termText (i : nat) (lens : list nat) (k : nat) (s : jsstring)
    : jsstring :=
  take (default 0 (lens !! k)) (drop (i + sum_list (take k lens)) s).

(** One given code unit, and a literal run of them. *)
Definition chr (c : N) : atom := Cls (N.eqb c) 1 (Some 1).
Definition lits (s : string) : list atom := chr <$> lit s.

End Groups.

(** ** fetchImageAsBase64 *)

Module Net.
Import JS Background Groups.

(** The class [^;]. *)
Definition isNotSemicolon (c : N) : bool := negb (c =? 59)%N.

(** The class of [.] without the [s] flag: all but the line terminators. *)
Definition isNotLineTerminator (c : N) : bool :=
  negb ((c =? 10)%N || (c =? 13)%N || (c =? 8232)%N || (c =? 8233)%N).

(** [/^data:([^;]+);base64,(.+)$/]: group 1 is term 6, group 2 is term 15. *)
Definition re_data_url : list atom :=
  [Bol] ++ lits "data:" ++ [Cls isNotSemicolon 1 None] ++ lits ";base64,"
  ++ [Cls isNotLineTerminator 1 None; Eol].

(** The digits of base64. *)
Definition base64Digit (n : N) : N :=
  if (n <? 26)%N then (n + 65)%N
  else if (n <? 52)%N then (n + 71)%N
  else if (n <? 62)%N then (n - 4)%N
  else if (n =? 62)%N then 43%N
  else 47%N.

(** Three octets give four digits; a short last group is padded with [=]. *)
Fixpoint base64 (s : list N) : jsstring :=
  match s with
  | [] => []
  | [a] =>
      [base64Digit (N.shiftr a 2);
       base64Digit (N.shiftl (N.land a 3) 4);
       61%N; 61%N]
  | [a; b] =>
      [base64Digit (N.shiftr a 2);
       base64Digit (N.lor (N.shiftl (N.land a 3) 4) (N.shiftr b 4));
       base64Digit (N.shiftl (N.land b 15) 2);
       61%N]
  | a :: b :: c :: rest =>
      [base64Digit (N.shiftr a 2);
       base64Digit (N.lor (N.shiftl (N.land a 3) 4) (N.shiftr b 4));
       base64Digit (N.lor (N.shiftl (N.land b 15) 2) (N.shiftr c 6));
       base64Digit (N.land c 63)]
      ++ base64 rest
  end.

(** [btoa]: it throws on a code unit above 255. *)
Definition btoa (binary : jsstring) : outcome jsstring :=
  if forallb (λ c, c <=? 255)%N binary then Returns (base64 binary) else Throws.

(** What [fetch(url)] and then [response.blob()] can come to: a rejection,
    or a response with its [ok] flag, and the type and the bytes of its
    body. *)
Inductive fetched : Type :=
  | Rejected
  | Response (ok : bool) (type : jsstring) (bytes : list Byte.byte).

(** The loop over the bytes: [String.fromCharCode] of each. *)
Definition binaryString (bytes : list Byte.byte) : jsstring :=
  Byte.to_N <$> bytes.

Definition fetchImageAsBase64 (fetch : jsstring → fetched) (url : jsstring)
    : option (jsstring * jsstring) :=
  if startsWith url (lit "data:") then
    match search_terms re_data_url true url with
    | Some (i, lens) => Some (termText i lens 6 url, termText i lens 15 url)
    | None => None
    end
  else
    match fetch url with
    | Rejected => None
    | Response ok type bytes =>
        if negb ok then None
        else
          let mimeType := orElse type (lit "image/png") in
          if (15 * 1024 * 1024 <? N.of_nat (length bytes))%N then None
          else
            match btoa (binaryString bytes) with
            | Returns base64 => Some (mimeType, base64)
            | Throws => None
            end
    end.

End Net.

(** ** Stored settings *)

Module Sync.
Import JS Background.

(** chrome.storage.sync as the extension uses it: two keys, each set or not. *)
Record store : Type := mkStore {
  storedEnabled : option bool;
  storedApiKey : option jsstring
}.

Definition fresh : store := mkStore None None.

(** [chrome.storage.sync.get({ enabled: true, apiKey: empty })]: the stored
    values, the defaults for the keys that are not set. *)
Definition getSettings (sync : store) : Settings :=
  mkSettings (default true (storedEnabled sync)) (default [] (storedApiKey sync)).

End Sync.

(** ** The context menu *)

Module ContextMenu.
Import JS Background.

Record OnClickData : Type := mkClick {
  menuItemId : jsstring;
  srcUrl : option jsstring
}.

Inductive effect : Type :=
  | BadgeText (text : jsstring)
  | Download (url filename : jsstring).

(** The onClicked listener: what it does, and pendingContextMenuDownloads
    afterwards.  An exception inside the try block is caught and logged. *)
Definition onClicked (h : Host) (info : OnClickData)
    (pending : gmap jsstring jsstring) : list effect * gmap jsstring jsstring :=
  if negb (bool_decide (menuItemId info = lit "ai-rename-image"))
  then ([], pending)
  else if bool_decide (apiKey (settings h) = [])
  then ([BadgeText (lit "!")], pending)
  else
    match srcUrl info with
    | None => ([], pending)
    | Some [] => ([], pending)
    | Some (u :: rl) =>
        let imageUrl := u :: rl in
        match fetchImageAsBase64 h imageUrl with
        | None => ([], pending)
        | Some (mimeType, data) =>
            match getAIFilename h data mimeType (apiKey (settings h)) with
            | (Throws, _) => ([], pending)
            | (Returns None, _) => ([], pending)
            | (Returns (Some []), _) => ([], pending)
            | (Returns (Some (c :: n)), _) =>
                let aiName := c :: n in
                let ext := vOrElse (getExtensionFromMime (Some mimeType))
                                   (VString (lit ".png")) in
                let filename := aiName ++ toString h ext in
                ([Download imageUrl filename], <[imageUrl := filename]> pending)
            end
        end
    end.

End ContextMenu.

(** ** The popup page *)

Module Page.
Import JS Background Popup Sync.

(** [div.textContent = str; return div.innerHTML]: the text serialized as
    the content of an element, which escapes the ampersand, the no-break
    space and the two angle brackets. *)
Definition escapeUnit (c : N) : jsstring :=
  if (c =? 38)%N then lit "&amp;"
  else if (c =? 160)%N then lit "&nbsp;"
  else if (c =? 60)%N then lit "&lt;"
  else if (c =? 62)%N then lit "&gt;"
  else [c].

Definition escapeHtml (str : jsstring) : jsstring := flat_map escapeUnit str.

(** The markup of one history item: the template literal of the forEach. *)
Definition itemMarkup (now : Z) (item : RenameEvent) : jsstring :=
  let ago := timeAgo now (timestamp item) in
  [10%N] ++ lit "        <div class=" ++ [34%N] ++ lit "original" ++ [34%N]
  ++ lit ">" ++ escapeHtml (original item) ++ lit "</div>"
  ++ [10%N] ++ lit "        <div class=" ++ [34%N] ++ lit "renamed" ++ [34%N]
  ++ lit ">" ++ escapeHtml (renamed item) ++ lit "</div>"
  ++ [10%N] ++ lit "        <div class=" ++ [34%N] ++ lit "time" ++ [34%N]
  ++ lit ">" ++ ago ++ lit "</div>"
  ++ [10%N] ++ lit "      ".

(** The answer to the getHistory message rendered: nothing is touched for
    no history or an empty one ([None]); else one item per event, in order. *)
Definition renderHistory (now : Z) (history : option (list RenameEvent))
    : option (list jsstring) :=
  match history with
  | None => None
  | Some [] => None
  | Some (e :: es) => Some (itemMarkup now <$> (e :: es))
  end.

(** What the user does in the popup. *)
Inductive event : Type :=
  | Toggle (checked : bool)
  | Save (input : jsstring).

(** The page: the store and the status message with its kind. *)
Record page : Type := mkPage {
  sync : store;
  status : option (jsstring * jsstring)
}.

(** The change handler of the toggle and the click handler of the save
    button. *)
Definition handle (e : event) (pg : page) : page :=
  match e with
  | Toggle enabled =>
      mkPage (mkStore (Some enabled) (storedApiKey (sync pg))) (status pg)
  | Save input =>
      match trim input with
      | [] => mkPage (sync pg) (Some (lit "Please enter an API key.", lit "error"))
      | c :: k =>
          mkPage (mkStore (storedEnabled (sync pg)) (Some (c :: k)))
                 (Some (lit "API key saved.", lit "success"))
      end
  end.

Fixpoint handleAll (es : list event) (pg : page) : page :=
  match es with
  | [] => pg
  | e :: rest => handleAll rest (handle e pg)
  end.

(** The inputs of the save clicks among the events. *)
Definition savedInputs (es : list event) : list jsstring :=
  omap (λ e, match e with Save input => Some input | Toggle _ => None end) es.

End Page.

(** ** Auxiliary definitions for the further statements *)

Module More.
Import JS Background Spec Run.


(** A host that finds its settings in the store and its images on the
    network. *)
Definition hostOf (sync : Sync.store) (fetch : jsstring → Net.fetched)
    (generate : jsstring → jsstring → jsstring → response) (clock : Z)
    (nativeToString : string → jsstring) : Host :=
  mkHost (Sync.getSettings sync) (Net.fetchImageAsBase64 fetch) generate clock
         nativeToString.

(** How often a code unit occurs. *)
Definition occurrences (c : N) (s : jsstring) : nat :=
  length (List.filter (N.eqb c) s).

(** The digits of base64 and the padding. *)
Definition isBase64Unit (c : N) : bool :=
  isUpper c || isLower c || isDigit c || (c =? 43)%N || (c =? 47)%N || (c =? 61)%N.

(** A stored key is the trimmed text of a save click, and is not empty. *)
Definition keyWellFormed (sync : Sync.store) : Prop :=
  match Sync.storedApiKey sync with
  | None => True
  | Some k => k ≠ [] ∧ trim k = k
  end.

(** A network that answers every url with the same response. *)
Definition answering (r : Net.fetched) : jsstring → Net.fetched := λ _, r.

(** A download of an image that names it [IMG_0042.JPG]. *)
Definition photoDownload : DownloadItem :=
  mkItem (lit "https://example.org/IMG_0042.JPG") (lit "IMG_0042.JPG")
         (lit "application/octet-stream").

(** A model that answers every image with the same text. *)
Definition namingHost (text : jsstring) : Host :=
  mkHost (mkSettings true (lit "key"))
         (λ _, Some (lit "image/jpeg", lit "AAAA"))
         (λ _ _ _, Body (Some text)) 1700000000000 (λ _, []).

(** What a suggested name is made of: lower-case letters, digits, hyphen,
    underscore and dot. *)
Definition isFileNameUnit (c : N) : bool :=
  isLowerAlnumHyphen c || isDot c || isUnderscore c.

(** The answer of the model in the example, and the name it leads to. *)
Definition photoText : jsstring := lit "  Sunset over Lake.png ".
Definition photoName : jsstring := lit "sunset-over-lake.jpg".

(** A click on the menu item over the same image. *)
Definition photoClick : ContextMenu.OnClickData :=
  ContextMenu.mkClick (lit "ai-rename-image")
                      (Some (lit "https://example.org/IMG_0042.JPG")).

End More.

Import JS Background Popup Spec Run.

(** * Proofs *)

(** ** Character classes *)

Ltac split_tests :=
  repeat (match goal with
          | |- context [N.leb ?a ?b] => destruct (N.leb_spec a b)
          | |- context [N.ltb ?a ?b] => destruct (N.ltb_spec a b)
          | |- context [N.eqb ?a ?b] => destruct (N.eqb_spec a b)
          | H : context [N.leb ?a ?b] |- _ => destruct (N.leb_spec a b)
          | H : context [N.ltb ?a ?b] |- _ => destruct (N.ltb_spec a b)
          | H : context [N.eqb ?a ?b] |- _ => destruct (N.eqb_spec a b)
          end; simpl in *; try lia; try discriminate).

Ltac char_facts :=
  unfold isNotAlnumHyphenI, ignoreCase, isLowerAlnumHyphen, isAsciiLetter,
    isSpaceOrUnderscore, isWord, isQuote, isWhiteSpace, asciiLower, asciiUpper,
    isUpper, isLower, isDigit, isHyphen, isDot, isUnderscore, in_range in *;
  split_tests; try reflexivity; try lia.

Lemma not_alnum_class c :
  negb (isNotAlnumHyphenI c) = isAsciiLetter c || isDigit c || isHyphen c.
Proof. char_facts. Qed.

Lemma kept_is_lower_safe c :
  negb (isNotAlnumHyphenI c) = true → isLowerAlnumHyphen (asciiLower c) = true.
Proof. char_facts. Qed.

Lemma safe_not_quote c : isLowerAlnumHyphen c = true → isQuote c = false.
Proof. char_facts. Qed.
Lemma safe_not_space c : isLowerAlnumHyphen c = true → isWhiteSpace c = false.
Proof. char_facts. Qed.
Lemma safe_not_space_or_underscore c :
  isLowerAlnumHyphen c = true → isSpaceOrUnderscore c = false.
Proof. char_facts. Qed.
Lemma safe_not_dot c : isLowerAlnumHyphen c = true → isDot c = false.
Proof. char_facts. Qed.
Lemma safe_kept c : isLowerAlnumHyphen c = true → isNotAlnumHyphenI c = false.
Proof. char_facts. Qed.
Lemma safe_lower c : isLowerAlnumHyphen c = true → asciiLower c = c.
Proof. char_facts. Qed.
Lemma hyphen_safe c : isHyphen c = true → isLowerAlnumHyphen c = true.
Proof. char_facts. Qed.
Lemma hyphen_eq c : isHyphen c = true → c = 45%N.
Proof. char_facts. Qed.
Lemma dot_not_word c : isDot c = true → isWord c = false.
Proof. char_facts. Qed.
Lemma hyphen_not_space c : isHyphen c = true → isWhiteSpace c = false.
Proof. char_facts. Qed.

(** ** The matcher on the patterns of the source *)

Section Matcher.
Variable p : N → bool.

(** A class repeated without upper bound, nothing after it: the whole run. *)
Lemma rep_run lo b s :
  rep p lo None (match_seq []) b s =
  if lo <=? runLength p s then Some (runLength p s) else None.
Proof.
  revert lo b. induction s as [|c s IH]; intros lo b; simpl.
  - destruct lo; reflexivity.
  - destruct (p c); simpl.
    + rewrite IH. destruct lo as [|lo]; simpl; [reflexivity|].
      destruct (lo <=? runLength p s); reflexivity.
    + destruct lo; reflexivity.
Qed.

(** A class repeated without upper bound up to the end of the input. *)
Lemma rep_to_end lo b s :
  rep p lo None (match_seq [Eol]) b s =
  if forallb p s && (lo <=? length s) then Some (length s) else None.
Proof.
  revert lo b. induction s as [|c s IH]; intros lo b; simpl.
  - destruct lo; reflexivity.
  - destruct (p c); simpl.
    + rewrite IH. destruct lo as [|lo]; simpl.
      * rewrite andb_true_r. destruct (forallb p s); reflexivity.
      * destruct (forallb p s && (lo <=? length s)); reflexivity.
    + destruct lo; reflexivity.
Qed.

(** A class repeated between bounds up to the end of the input. *)
Lemma rep_bounded_to_end lo hi b s :
  rep p lo (Some hi) (match_seq [Eol]) b s =
  if forallb p s && (lo <=? length s) && (length s <=? hi)
  then Some (length s) else None.
Proof.
  revert lo hi b. induction s as [|c s IH]; intros lo hi b; simpl.
  - destruct lo; reflexivity.
  - destruct (p c); simpl.
    + destruct hi as [|hi]; simpl.
      * rewrite andb_false_r. destruct lo; reflexivity.
      * rewrite IH. destruct lo as [|lo]; simpl.
        -- rewrite !andb_true_r.
           destruct (forallb p s && (length s <=? hi)); reflexivity.
        -- destruct (forallb p s && (lo <=? length s) && (length s <=? hi));
             reflexivity.
    + destruct lo; reflexivity.
Qed.

(** One code unit of a class. *)
Lemma match_one b s :
  match_here [[Cls p 1 (Some 1)]] b s =
  match s with c :: _ => if p c then Some 1 else None | [] => None end.
Proof.
  destruct s as [|c s]; simpl; [reflexivity|].
  destruct (p c); simpl; [|reflexivity].
  destruct s as [|c' s]; simpl; [reflexivity|].
  rewrite andb_false_r. reflexivity.
Qed.

Lemma replace_from_one repl b s :
  replace_from [[Cls p 1 (Some 1)]] repl 0 b s =
  flat_map (λ c, if p c then repl else [c]) s.
Proof.
  revert b. induction s as [|c s IH]; intros b.
  - reflexivity.
  - cbn [replace_from]. rewrite match_one. cbn [flat_map].
    destruct (p c); rewrite IH; [|reflexivity].
    destruct s; reflexivity.
Qed.


Lemma replaceAll_delete s :
  replaceAll [[Cls p 1 (Some 1)]] [] s = List.filter (λ c, negb (p c)) s.
Proof.
  unfold replaceAll. rewrite replace_from_one.
  induction s as [|c s IH]; simpl; [reflexivity|].
  rewrite IH. destruct (p c); reflexivity.
Qed.

Lemma match_run lo b s :
  match_here [[Cls p lo None]] b s =
  if lo <=? runLength p s then Some (runLength p s) else None.
Proof.
  cbn [match_here match_seq]. rewrite rep_run.
  destruct (lo <=? runLength p s); reflexivity.
Qed.

Lemma squeeze_outside b s : runLength p s = 0 → squeeze p b s = squeeze p false s.
Proof.
  destruct s as [|c s]; simpl; [reflexivity|].
  destruct (p c); [discriminate | reflexivity].
Qed.

(** Runs of one or more become a hyphen. *)
Lemma replace_from_runs b s :
  replace_from [[Cls p 1 None]] [45%N] 0 b s = squeeze p false s
  ∧ replace_from [[Cls p 1 None]] [45%N] (runLength p s) b s = squeeze p true s.
Proof.
  revert b. induction s as [|c s IH]; intros b.
  - split; reflexivity.
  - cbn [replace_from runLength squeeze]. rewrite match_run. cbn [runLength].
    destruct (p c) eqn:Hc.
    + destruct (IH false) as [_ IH2]. cbn [Nat.leb]. rewrite IH2.
      split; reflexivity.
    + cbn [Nat.leb]. destruct (IH false) as [IH1 _]. rewrite IH1.
      split; reflexivity.
Qed.

End Matcher.

(** Runs of two or more hyphens become one hyphen; a single one stays. *)
Lemma replace_from_hyphen_runs b s :
  replace_from [[Cls isHyphen 2 None]] [45%N] 0 b s = squeeze isHyphen false s
  ∧ replace_from [[Cls isHyphen 2 None]] [45%N] (runLength isHyphen s) b s
    = squeeze isHyphen true s.
Proof.
  revert b. induction s as [|c s IH]; intros b.
  - split; reflexivity.
  - cbn [replace_from runLength squeeze]. rewrite match_run. cbn [runLength].
    destruct (isHyphen c) eqn:Hc.
    + destruct (IH false) as [IH1 IH2]. rewrite IH2.
      destruct (runLength isHyphen s) as [|n] eqn:Hn; cbn [Nat.leb].
      * rewrite IH1, (squeeze_outside _ true s Hn), (hyphen_eq c Hc).
        split; reflexivity.
      * rewrite ?IH2. split; reflexivity.
    + cbn [Nat.leb]. destruct (IH false) as [IH1 _]. rewrite IH1.
      split; reflexivity.
Qed.

(** Patterns that end in [$] and match, when they do, up to the end. *)
Section Anchored.
Variable r : regex.
Variable T : jsstring → bool.
Hypothesis match_to_end :
  ∀ b s, match_here r b s = if T s then Some (length s) else None.

Lemma search_anchored_cut b s :
  match search r b s with
  | Some (i, n) => take i s ++ [] ++ drop (i + n) s
  | None => s
  end = cutAt T s.
Proof.
  revert b. induction s as [|c s IH]; intros b.
  - cbn [search cutAt]. rewrite match_to_end. destruct (T []); reflexivity.
  - cbn [search cutAt]. rewrite match_to_end. destruct (T (c :: s)).
    + cbn [take app plus length drop]. apply drop_all.
    + specialize (IH false). destruct (search r false s) as [[i n]|].
      * cbn [take plus drop]. simpl. f_equal. exact IH.
      * f_equal. exact IH.
Qed.

Lemma search_anchored_suffix b s :
  match search r b s with
  | Some (i, n) => Some (take n (drop i s))
  | None => None
  end = suffixAt T s.
Proof.
  revert b. induction s as [|c s IH]; intros b.
  - cbn [search suffixAt]. rewrite match_to_end. destruct (T []); reflexivity.
  - cbn [search suffixAt]. rewrite match_to_end. destruct (T (c :: s)).
    + cbn [drop]. rewrite firstn_all. reflexivity.
    + specialize (IH false). destruct (search r false s) as [[i n]|]; exact IH.
Qed.

Lemma replace_anchored s : replace r [] s = cutAt T s.
Proof. apply search_anchored_cut. Qed.

Lemma match_anchored s : match_ r s = suffixAt T s.
Proof. apply search_anchored_suffix. Qed.

End Anchored.

Lemma match_trailing_hyphens b s :
  match_here re_trailing_hyphens b s =
  if onlyHyphens s then Some (length s) else None.
Proof.
  unfold re_trailing_hyphens, onlyHyphens. cbn [match_here match_seq].
  rewrite rep_to_end. destruct (forallb isHyphen s && (1 <=? length s)); reflexivity.
Qed.

Lemma rep_none p k b s : rep p 0 (Some 0) k b s = k b s.
Proof. destruct s; simpl; [reflexivity|]. rewrite andb_false_r. reflexivity. Qed.

Lemma rep_one p k b s :
  rep p 1 (Some 1) k b s =
  match s with
  | c :: s' => if p c then S <$> k false s' else None
  | [] => None
  end.
Proof.
  destruct s as [|c s]; [reflexivity|].
  cbn [rep can_take pred fmap option_fmap option_map]. rewrite andb_true_r.
  destruct (p c); [|reflexivity]. rewrite rep_none.
  destruct (k false s); reflexivity.
Qed.

Lemma match_extension hi b s :
  match_here [[Cls isDot 1 (Some 1); Cls isWord 2 (Some hi); Eol]] b s =
  if startsExtension 2 hi s then Some (length s) else None.
Proof.
  cbn [match_here match_seq]. rewrite rep_one.
  destruct s as [|c s]; [reflexivity|]. cbn [startsExtension].
  destruct (isDot c); cbn [andb]; [|reflexivity].
  rewrite rep_bounded_to_end. unfold isExtensionTail.
  destruct (forallb isWord s), (2 <=? length s), (length s <=? hi); reflexivity.
Qed.

Lemma dropTrailing_nil p s : dropTrailing p s = [] ↔ forallb p s = true.
Proof.
  induction s as [|c s IH]; simpl; [tauto|].
  destruct (dropTrailing p s) eqn:E.
  - destruct (p c); simpl; [tauto|]. split; discriminate.
  - split; [discriminate|]. intros H. apply andb_true_iff in H as [_ H].
    apply IH in H. discriminate.
Qed.

Lemma dropTrailing_cons p c s :
  dropTrailing p (c :: s) =
  if forallb p (c :: s) then [] else c :: dropTrailing p s.
Proof.
  cbn [dropTrailing forallb]. destruct (dropTrailing p s) eqn:E.
  - apply dropTrailing_nil in E. rewrite E, andb_true_r.
    destruct (p c); reflexivity.
  - destruct (forallb p s) eqn:F.
    + apply dropTrailing_nil in F. congruence.
    + rewrite andb_false_r. reflexivity.
Qed.

Lemma cutAt_onlyHyphens s : cutAt onlyHyphens s = dropTrailing isHyphen s.
Proof.
  induction s as [|c s IH]; [reflexivity|].
  rewrite dropTrailing_cons. cbn [cutAt]. unfold onlyHyphens at 1.
  cbn [length Nat.leb]. rewrite andb_true_r, IH. reflexivity.
Qed.

Lemma cutAt_startsExtension lo hi s :
  cutAt (startsExtension lo hi) s = dropExtension lo hi s.
Proof.
  induction s as [|c s IH]; [reflexivity|].
  cbn [cutAt dropExtension startsExtension]. rewrite IH. reflexivity.
Qed.

Lemma suffixAt_startsExtension lo hi s :
  suffixAt (startsExtension lo hi) s = extensionOf lo hi s.
Proof.
  induction s as [|c s IH]; [reflexivity|].
  cbn [suffixAt extensionOf startsExtension]. rewrite IH. reflexivity.
Qed.

(** The replaces and the match of the source, pattern by pattern. *)
Lemma replace_trailing_hyphens s :
  replace re_trailing_hyphens [] s = dropTrailing isHyphen s.
Proof.
  rewrite (replace_anchored _ _ match_trailing_hyphens). apply cutAt_onlyHyphens.
Qed.

Lemma replace_ai_extension s : replace re_ai_extension [] s = dropExtension 2 4 s.
Proof.
  unfold re_ai_extension.
  rewrite (replace_anchored _ _ (match_extension 4)). apply cutAt_startsExtension.
Qed.

Lemma match_file_extension s : match_ re_file_extension s = extensionOf 2 5 s.
Proof.
  unfold re_file_extension.
  rewrite (match_anchored _ _ (match_extension 5)). apply suffixAt_startsExtension.
Qed.

Lemma runLength_zero_onlyHyphens s :
  runLength isHyphen s = 0 → onlyHyphens s = false.
Proof.
  destruct s as [|c s]; [reflexivity|]. unfold onlyHyphens. cbn.
  destruct (isHyphen c); [discriminate | reflexivity].
Qed.

Lemma match_edge_start s :
  match_here re_edge_hyphens true s =
  if 1 <=? runLength isHyphen s then Some (runLength isHyphen s) else None.
Proof.
  unfold re_edge_hyphens. cbn [match_here match_seq].
  rewrite rep_run, rep_to_end. fold (onlyHyphens s).
  destruct (runLength isHyphen s) eqn:E; cbn [Nat.leb]; [|reflexivity].
  rewrite (runLength_zero_onlyHyphens s E). reflexivity.
Qed.

Lemma match_edge_inside s :
  match_here re_edge_hyphens false s =
  if onlyHyphens s then Some (length s) else None.
Proof.
  unfold re_edge_hyphens, onlyHyphens. cbn [match_here match_seq].
  rewrite rep_to_end.
  destruct (forallb isHyphen s && (1 <=? length s)); reflexivity.
Qed.

(** After the start of the input only the second alternative can match. *)
Lemma replace_from_edge_inside s :
  replace_from re_edge_hyphens [] 0 false s = dropTrailing isHyphen s
  ∧ replace_from re_edge_hyphens [] (length s) false s = [].
Proof.
  induction s as [|c s [IH1 IH2]].
  - split; reflexivity.
  - split; [|exact IH2].
    cbn [replace_from]. rewrite match_edge_inside, dropTrailing_cons.
    unfold onlyHyphens. cbn [length Nat.leb]. rewrite andb_true_r.
    destruct (forallb isHyphen (c :: s)); cbn [length app].
    + exact IH2.
    + rewrite IH1. reflexivity.
Qed.

Lemma replace_from_edge_skip s :
  replace_from re_edge_hyphens [] (runLength isHyphen s) false s =
  dropTrailing isHyphen (dropLeading isHyphen s).
Proof.
  induction s as [|c s IH]; [reflexivity|].
  cbn [runLength dropLeading]. destruct (isHyphen c).
  - exact IH.
  - apply replace_from_edge_inside.
Qed.

Lemma replaceAll_edge_hyphens s :
  replaceAll re_edge_hyphens [] s = dropTrailing isHyphen (dropLeading isHyphen s).
Proof.
  unfold replaceAll. destruct s as [|c s]; [reflexivity|].
  cbn [replace_from]. rewrite match_edge_start.
  cbn [runLength dropLeading]. destruct (isHyphen c) eqn:Hc; cbn [Nat.leb app].
  - apply replace_from_edge_skip.
  - rewrite (proj1 (replace_from_edge_inside s)), dropTrailing_cons.
    cbn [forallb]. rewrite Hc. reflexivity.
Qed.

Lemma replaceAll_quotes s :
  replaceAll re_quotes [] s = List.filter (λ c, negb (isQuote c)) s.
Proof. apply replaceAll_delete. Qed.

Lemma replaceAll_not_alnum s :
  replaceAll re_not_alnum [] s =
  List.filter (λ c, isAsciiLetter c || isDigit c || isHyphen c) s.
Proof.
  unfold re_not_alnum. rewrite replaceAll_delete.
  induction s as [|c s IH]; [reflexivity|].
  cbn [List.filter]. rewrite IH, not_alnum_class. reflexivity.
Qed.

Lemma replaceAll_spaces s :
  replaceAll re_spaces (lit "-") s = squeeze isSpaceOrUnderscore false s.
Proof. apply replace_from_runs. Qed.

Lemma replaceAll_hyphens s :
  replaceAll re_hyphens (lit "-") s = squeeze isHyphen false s.
Proof. apply replace_from_hyphen_runs. Qed.

(** The first seven assignments are the first seven steps. *)
Lemma cleanBeforeLimit_steps s :
  cleanBeforeLimit s = step7 (step6 (step5 (step4 (step3 (step2 (step1 s)))))).
Proof.
  unfold cleanBeforeLimit.
  rewrite replaceAll_quotes, replace_ai_extension, replaceAll_spaces,
    replaceAll_not_alnum, replaceAll_hyphens, replaceAll_edge_hyphens.
  reflexivity.
Qed.

Lemma sanitizeFilename_limit s :
  sanitizeFilename s =
  orElse (if 60 <? length (cleanBeforeLimit s)
          then dropTrailing isHyphen (take 60 (cleanBeforeLimit s))
          else cleanBeforeLimit s) (lit "unnamed-file").
Proof.
  unfold sanitizeFilename. fold (cleanBeforeLimit s).
  rewrite replace_trailing_hyphens.
  destruct (60 <? length (cleanBeforeLimit s)) eqn:E; [|reflexivity].
  unfold substring. apply Nat.ltb_lt in E.
  replace (60 `min` length (cleanBeforeLimit s)) with 60 by lia.
  cbn [Nat.min Nat.max Nat.sub drop]. reflexivity.
Qed.

(** ** The steps on well-formed names *)

Lemma forallb_impl (p q : N → bool) s :
  (∀ c, p c = true → q c = true) → forallb p s = true → forallb q s = true.
Proof.
  intros Hpq. induction s as [|c s IH]; simpl; [done|].
  intros [Hc Hs]%andb_true_iff. rewrite (Hpq c Hc), (IH Hs). reflexivity.
Qed.

Lemma filter_id (f : N → bool) s : forallb f s = true → List.filter f s = s.
Proof.
  induction s as [|c s IH]; simpl; [done|].
  intros [Hc Hs]%andb_true_iff. rewrite Hc, (IH Hs). reflexivity.
Qed.

Lemma forallb_rev (p : N → bool) s : forallb p (rev s) = forallb p s.
Proof.
  induction s as [|c s IH]; simpl; [done|].
  rewrite forallb_app, IH. simpl. rewrite andb_true_r. apply andb_comm.
Qed.

Lemma forallb_take (p : N → bool) n s :
  forallb p s = true → forallb p (take n s) = true.
Proof.
  revert n. induction s as [|c s IH]; intros [|n]; simpl; try done.
  intros [Hc Hs]%andb_true_iff. rewrite Hc. apply IH, Hs.
Qed.

Lemma forallb_dropLeading (p q : N → bool) s :
  forallb p s = true → forallb p (dropLeading q s) = true.
Proof.
  induction s as [|c s IH]; simpl; [done|].
  intros H. destruct (q c); [|exact H].
  apply andb_true_iff in H as [_ H]. apply IH, H.
Qed.

Lemma forallb_dropTrailing (p q : N → bool) s :
  forallb p s = true → forallb p (dropTrailing q s) = true.
Proof.
  induction s as [|c s IH]; [done|].
  rewrite dropTrailing_cons. intros [Hc Hs]%andb_true_iff.
  destruct (forallb q (c :: s)); [done|]. simpl. rewrite Hc. apply IH, Hs.
Qed.

Lemma forallb_squeeze (p q : N → bool) b s :
  p 45%N = true → forallb p s = true → forallb p (squeeze q b s) = true.
Proof.
  intros H45. revert b. induction s as [|c s IH]; intros b; simpl; [done|].
  intros [Hc Hs]%andb_true_iff.
  destruct (q c), b; simpl; rewrite ?H45, ?Hc; apply IH, Hs.
Qed.

Lemma squeeze_id (p : N → bool) b s :
  forallb (λ c, negb (p c)) s = true → squeeze p b s = s.
Proof.
  revert b. induction s as [|c s IH]; intros b; simpl; [done|].
  intros [Hc Hs]%andb_true_iff. apply negb_true_iff in Hc.
  rewrite Hc, (IH false Hs). reflexivity.
Qed.

Lemma trimStart_id s :
  forallb (λ c, negb (isWhiteSpace c)) s = true → trimStart s = s.
Proof.
  destruct s as [|c s]; simpl; [done|].
  intros [Hc _]%andb_true_iff. apply negb_true_iff in Hc. rewrite Hc. done.
Qed.

Lemma trim_id s : forallb (λ c, negb (isWhiteSpace c)) s = true → trim s = s.
Proof.
  intros H. unfold trim, trimEnd. rewrite (trimStart_id s H).
  rewrite trimStart_id by (rewrite forallb_rev; exact H). apply rev_involutive.
Qed.

Lemma dropExtension_id lo hi s :
  forallb (λ c, negb (isDot c)) s = true → dropExtension lo hi s = s.
Proof.
  induction s as [|c s IH]; simpl; [done|].
  intros [Hc Hs]%andb_true_iff. apply negb_true_iff in Hc.
  rewrite Hc, (IH Hs). reflexivity.
Qed.

Lemma toLowerCase_id s : forallb isLowerAlnumHyphen s = true → toLowerCase s = s.
Proof.
  unfold toLowerCase. induction s as [|c s IH]; simpl; [done|].
  intros [Hc Hs]%andb_true_iff. rewrite (safe_lower c Hc), (IH Hs). reflexivity.
Qed.

(** *** Hyphens side by side *)

Lemma noDoubleHyphen_tail c s :
  noDoubleHyphen (c :: s) = true → noDoubleHyphen s = true.
Proof. cbn [noDoubleHyphen]. intros [_ H]%andb_true_iff. exact H. Qed.

Lemma noDoubleHyphen_dropLeading s :
  noDoubleHyphen s = true → noDoubleHyphen (dropLeading isHyphen s) = true.
Proof.
  induction s as [|c s IH]; [done|]. intros H. cbn [dropLeading].
  destruct (isHyphen c); [|exact H]. apply IH, (noDoubleHyphen_tail c), H.
Qed.

Lemma noDoubleHyphen_take n s :
  noDoubleHyphen s = true → noDoubleHyphen (take n s) = true.
Proof.
  revert n. induction s as [|c s IH]; intros [|n] H; try done.
  cbn [take]. pose proof (IH n (noDoubleHyphen_tail c s H)) as IH'.
  cbn [noDoubleHyphen]. rewrite IH', andb_true_r.
  destruct s as [|c' s], n as [|n]; try done.
  cbn [take]. cbn [noDoubleHyphen] in H.
  apply andb_true_iff in H as [H _]. exact H.
Qed.

Lemma noDoubleHyphen_dropTrailing s :
  noDoubleHyphen s = true → noDoubleHyphen (dropTrailing isHyphen s) = true.
Proof.
  induction s as [|c s IH]; [done|]. intros H.
  pose proof (IH (noDoubleHyphen_tail c s H)) as IH'.
  rewrite dropTrailing_cons. destruct (forallb isHyphen (c :: s)); [done|].
  cbn [noDoubleHyphen]. rewrite IH', andb_true_r.
  destruct s as [|c' s]; [done|]. rewrite dropTrailing_cons.
  destruct (forallb isHyphen (c' :: s)); [done|].
  cbn [noDoubleHyphen] in H. apply andb_true_iff in H as [H _]. exact H.
Qed.

Lemma dropLeading_length p s : length (dropLeading p s) ≤ length s.
Proof.
  induction s as [|c s IH]; simpl; [lia|]. destruct (p c); simpl; lia.
Qed.

Lemma noDoubleHyphen_squeeze s :
  noDoubleHyphen (squeeze isHyphen false s) = true
  ∧ noDoubleHyphen (squeeze isHyphen true s) = true
  ∧ dropLeading isHyphen (squeeze isHyphen true s) = squeeze isHyphen true s.
Proof.
  induction s as [|c s (IH1 & IH2 & IH3)]; [done|].
  cbn [squeeze]. destruct (isHyphen c) eqn:Hc.
  - split; [|done]. cbn [noDoubleHyphen]. rewrite IH2, andb_true_r.
    destruct (squeeze isHyphen true s) as [|c' t]; [done|].
    cbn [dropLeading] in IH3. destruct (isHyphen c') eqn:Hc'.
    + exfalso. pose proof (dropLeading_length isHyphen t) as Hl.
      rewrite IH3 in Hl. simpl in Hl. lia.
    + rewrite andb_false_r. done.
  - cbn [noDoubleHyphen dropLeading]. rewrite Hc, IH1. simpl.
    destruct (squeeze isHyphen false s); done.
Qed.

Lemma squeeze_noDoubleHyphen s :
  noDoubleHyphen s = true →
  squeeze isHyphen false s = s
  ∧ (dropLeading isHyphen s = s → squeeze isHyphen true s = s).
Proof.
  induction s as [|c s IH]; [done|]. intros H.
  destruct (IH (noDoubleHyphen_tail c s H)) as [IH1 IH2].
  cbn [squeeze dropLeading]. destruct (isHyphen c) eqn:Hc.
  - split.
    + rewrite (hyphen_eq c Hc) in *. f_equal. apply IH2.
      destruct s as [|c' s]; [done|]. cbn [noDoubleHyphen] in H.
      apply andb_true_iff in H as [H _]. cbn [dropLeading].
      change (isHyphen 45) with true in H. cbn [andb] in H.
      apply negb_true_iff in H. rewrite H. done.
    + intros Hd. exfalso. pose proof (dropLeading_length isHyphen s) as Hl.
      rewrite Hd in Hl. simpl in Hl. lia.
  - rewrite IH1. done.
Qed.

(** *** Hyphens at the edges *)

Lemma dropLeading_idem p s : dropLeading p (dropLeading p s) = dropLeading p s.
Proof.
  induction s as [|c s IH]; [done|]. cbn [dropLeading].
  destruct (p c) eqn:Hc; [exact IH|]. cbn [dropLeading]. rewrite Hc. done.
Qed.

Lemma dropLeading_take p n s :
  dropLeading p s = s → dropLeading p (take n s) = take n s.
Proof.
  destruct s as [|c s], n as [|n]; try done. cbn [dropLeading take].
  destruct (p c); [|done]. intros H. pose proof (dropLeading_length p s) as Hl.
  rewrite H in Hl. simpl in Hl. lia.
Qed.

Lemma dropLeading_dropTrailing p s :
  dropLeading p s = s → dropLeading p (dropTrailing p s) = dropTrailing p s.
Proof.
  destruct s as [|c s]; [done|]. rewrite dropTrailing_cons.
  destruct (forallb p (c :: s)); [done|]. cbn [dropLeading].
  destruct (p c); [|done]. intros H. pose proof (dropLeading_length p s) as Hl.
  rewrite H in Hl. simpl in Hl. lia.
Qed.

Lemma forallb_dropTrailing_self p s :
  forallb p (dropTrailing p s) = true → forallb p s = true.
Proof.
  induction s as [|c s IH]; [done|]. rewrite dropTrailing_cons.
  destruct (forallb p (c :: s)) eqn:E; [done|].
  cbn [forallb] in *. intros [Hc Hs]%andb_true_iff.
  rewrite Hc, (IH Hs) in E. done.
Qed.

Lemma dropTrailing_idem p s : dropTrailing p (dropTrailing p s) = dropTrailing p s.
Proof.
  induction s as [|c s IH]; [done|]. rewrite dropTrailing_cons.
  destruct (forallb p (c :: s)) eqn:E; [done|].
  rewrite dropTrailing_cons, IH.
  destruct (forallb p (c :: dropTrailing p s)) eqn:F; [|done].
  cbn [forallb] in *. apply andb_true_iff in F as [Hc Hs].
  rewrite Hc, (forallb_dropTrailing_self p s Hs) in E. done.
Qed.

Lemma dropTrailing_length p s : length (dropTrailing p s) ≤ length s.
Proof.
  induction s as [|c s IH]; [done|]. rewrite dropTrailing_cons.
  destruct (forallb p (c :: s)); simpl; lia.
Qed.

(** Without neighbouring hyphens the trailing run is one hyphen at most. *)
Lemma dropTrailing_one s :
  noDoubleHyphen s = true →
  dropTrailing isHyphen s =
  match last s with
  | Some c => if isHyphen c then take (length s - 1) s else s
  | None => s
  end.
Proof.
  induction s as [|c s IH]; [done|]. intros H.
  specialize (IH (noDoubleHyphen_tail c s H)).
  destruct s as [|c' s].
  - cbn. destruct (isHyphen c); done.
  - rewrite dropTrailing_cons, IH.
    cbn [noDoubleHyphen] in H. apply andb_true_iff in H as [H _].
    apply negb_true_iff in H. cbn [forallb]. rewrite andb_assoc, H. cbn [andb].
    change (last (c :: c' :: s)) with (last (c' :: s)).
    destruct (last (c' :: s)) as [x|]; [|done].
    destruct (isHyphen x); [|done].
    cbn [length]. rewrite !Nat.sub_succ, !Nat.sub_0_r. done.
Qed.

(** ** The sanitizer *)

Lemma step5_safe s : matchesSafeName (step5 (step4 s)) = true.
Proof.
  unfold matchesSafeName, step5, step4, toLowerCase.
  induction s as [|c s IH]; [done|]. cbn [List.filter].
  destruct (isAsciiLetter c || isDigit c || isHyphen c) eqn:E; [|exact IH].
  cbn [List.map forallb]. rewrite IH, andb_true_r.
  apply kept_is_lower_safe. rewrite not_alnum_class. exact E.
Qed.

(** What holds of [clean] when the length limit is reached. *)
Lemma cleanBeforeLimit_shape s :
  let t := cleanBeforeLimit s in
  matchesSafeName t = true ∧ noDoubleHyphen t = true
  ∧ dropLeading isHyphen t = t ∧ dropTrailing isHyphen t = t.
Proof.
  cbn zeta. rewrite cleanBeforeLimit_steps.
  set (u := step3 (step2 (step1 s))). unfold step7, step6. repeat split.
  - apply forallb_dropTrailing, forallb_dropLeading, forallb_squeeze;
      [done | apply step5_safe].
  - apply noDoubleHyphen_dropTrailing, noDoubleHyphen_dropLeading,
      noDoubleHyphen_squeeze.
  - apply dropLeading_dropTrailing, dropLeading_idem.
  - apply dropTrailing_idem.
Qed.

Lemma fallback_wellFormed : wellFormedName (lit "unnamed-file").
Proof. repeat split; try done. cbn. lia. Qed.

Lemma sanitizeFilename_wellFormed s : wellFormedName (sanitizeFilename s).
Proof.
  rewrite sanitizeFilename_limit.
  destruct (cleanBeforeLimit_shape s) as (H1 & H2 & H3 & H4).
  set (t := cleanBeforeLimit s) in *.
  assert (wellFormedName (if 60 <? length t
                          then dropTrailing isHyphen (take 60 t) else t)
          ∨ (if 60 <? length t then dropTrailing isHyphen (take 60 t) else t) = [])
    as [H|H].
  { destruct (if 60 <? length t then dropTrailing isHyphen (take 60 t) else t)
      as [|c r] eqn:E; [by right|]. left. rewrite <- E.
    destruct (60 <? length t) eqn:L.
    - repeat split.
      + apply forallb_dropTrailing, forallb_take, H1.
      + apply noDoubleHyphen_dropTrailing, noDoubleHyphen_take, H2.
      + apply dropLeading_dropTrailing, dropLeading_take, H3.
      + apply dropTrailing_idem.
      + pose proof (dropTrailing_length isHyphen (take 60 t)).
        rewrite length_take in *. lia.
      + rewrite E. done.
    - apply Nat.ltb_ge in L. repeat split; try done. rewrite E. done. }
  - destruct H as (? & ? & ? & ? & ? & Hne).
    destruct (if 60 <? length t then dropTrailing isHyphen (take 60 t) else t)
      as [|c r]; [done|]. cbn [orElse]. repeat split; done.
  - rewrite H. apply fallback_wellFormed.
Qed.

(** Steps 1 to 5 leave a string of lower-case letters, digits and hyphens
    as it is. *)
Lemma steps_1_to_5_id t :
  matchesSafeName t = true → step5 (step4 (step3 (step2 (step1 t)))) = t.
Proof.
  unfold matchesSafeName. intros H1.
  assert (step1 t = t) as ->.
  { unfold step1. rewrite filter_id.
    - apply trim_id. revert H1. apply forallb_impl. intros c Hc.
      rewrite (safe_not_space c Hc). done.
    - revert H1. apply forallb_impl. intros c Hc.
      rewrite (safe_not_quote c Hc). done. }
  assert (step2 t = t) as ->.
  { apply dropExtension_id. revert H1. apply forallb_impl. intros c Hc.
    rewrite (safe_not_dot c Hc). done. }
  assert (step3 t = t) as ->.
  { apply squeeze_id. revert H1. apply forallb_impl. intros c Hc.
    rewrite (safe_not_space_or_underscore c Hc). done. }
  assert (step4 t = t) as ->.
  { apply filter_id. revert H1. apply forallb_impl. intros c Hc.
    rewrite <- not_alnum_class, (safe_kept c Hc). done. }
  apply toLowerCase_id, H1.
Qed.

Lemma sanitizeFilename_fixes t : wellFormedName t → sanitizeFilename t = t.
Proof.
  intros (H1 & H2 & H3 & H4 & H5 & H6).
  assert (cleanBeforeLimit t = t) as E.
  { rewrite cleanBeforeLimit_steps, (steps_1_to_5_id t H1).
    assert (step6 t = t) as -> by apply squeeze_noDoubleHyphen, H2.
    unfold step7. rewrite H3. exact H4. }
  rewrite sanitizeFilename_limit, E.
  destruct (Nat.ltb_spec 60 (length t)); [lia|].
  destruct t; done.
Qed.

Lemma orElse_nil s : orElse s [] = s.
Proof. destruct s; reflexivity. Qed.

Lemma cleanAtReturn_limit s :
  cleanAtReturn s =
  if 60 <? length (cleanBeforeLimit s)
  then dropTrailing isHyphen (take 60 (cleanBeforeLimit s))
  else cleanBeforeLimit s.
Proof.
  unfold cleanAtReturn. cbn zeta. rewrite replace_trailing_hyphens.
  destruct (Nat.ltb_spec 60 (length (cleanBeforeLimit s))); [|reflexivity].
  unfold substring. replace (60 `min` length (cleanBeforeLimit s)) with 60 by lia.
  reflexivity.
Qed.

Lemma cleanAtReturn_steps s : cleanAtReturn s = steps s.
Proof.
  rewrite cleanAtReturn_limit. unfold steps.
  rewrite <- cleanBeforeLimit_steps.
  destruct (cleanBeforeLimit_shape s) as (_ & H2 & _ & H4).
  set (t := cleanBeforeLimit s) in *. unfold step8.
  rewrite <- (dropTrailing_one (take 60 t)) by apply noDoubleHyphen_take, H2.
  destruct (Nat.ltb_spec 60 (length t)) as [L|L]; [reflexivity|].
  rewrite take_ge by lia. rewrite H4. reflexivity.
Qed.

Lemma sanitizeFilename_return s :
  sanitizeFilename s = orElse (cleanAtReturn s) (lit "unnamed-file").
Proof. reflexivity. Qed.

Lemma sanitizeFilename_spec s : sanitizeFilename s = sanitize s.
Proof.
  rewrite sanitizeFilename_return, cleanAtReturn_steps. unfold sanitize.
  destruct (steps s); reflexivity.
Qed.

Lemma dropLeading_all p s : forallb p s = true → dropLeading p s = [].
Proof.
  induction s as [|c s IH]; simpl; [done|].
  intros [Hc Hs]%andb_true_iff. rewrite Hc. apply IH, Hs.
Qed.

Lemma trimStart_all s : allWhiteSpace s = true → trimStart s = [].
Proof.
  induction s as [|c s IH]; simpl; [done|].
  intros [Hc Hs]%andb_true_iff. rewrite Hc. apply IH, Hs.
Qed.

Lemma empty_at_limit_fallback s :
  cleanBeforeLimit s = [] → sanitizeFilename s = lit "unnamed-file".
Proof. intros H. rewrite sanitizeFilename_limit, H. reflexivity. Qed.

Lemma sanitizeFilename_allWhiteSpace s :
  allWhiteSpace s = true → sanitizeFilename s = lit "unnamed-file".
Proof.
  intros H. apply empty_at_limit_fallback. rewrite cleanBeforeLimit_steps.
  assert (step1 s = []) as ->; [|reflexivity].
  unfold step1. rewrite filter_id.
  - unfold trim. rewrite (trimStart_all s H). reflexivity.
  - revert H. apply forallb_impl. intros c Hc. char_facts.
Qed.

Lemma sanitizeFilename_allHyphens s :
  allHyphens s = true → sanitizeFilename s = lit "unnamed-file".
Proof.
  intros H. apply empty_at_limit_fallback. rewrite cleanBeforeLimit_steps.
  rewrite steps_1_to_5_id by (revert H; apply forallb_impl, hyphen_safe).
  unfold step7, step6. rewrite dropLeading_all; [reflexivity|].
  apply forallb_squeeze; [reflexivity | exact H].
Qed.

Lemma dropTrailing_fixed_last p t c :
  dropTrailing p t = t → last t = Some c → p c = false.
Proof.
  induction t as [|x t IH]; [done|]. rewrite dropTrailing_cons.
  destruct (forallb p (x :: t)) eqn:E; [done|]. intros Ht Hl.
  injection Ht as Ht. destruct t as [|y t].
  - cbn in E, Hl. injection Hl as <-. rewrite andb_true_r in E. exact E.
  - apply IH; [exact Ht | exact Hl].
Qed.

(** ** The rename history *)

Lemma getHistory_logRename now o n local :
  getHistory (logRename now o n local) = take 50 (mkEvent o n now :: getHistory local).
Proof.
  unfold getHistory, logRename. rewrite lookup_insert_eq. cbn [default].
  set (h := mkEvent o n now :: default [] (local !! "renameHistory"%string)).
  destruct (Nat.ltb_spec 50 (length h)); [reflexivity|].
  rewrite take_ge by lia. reflexivity.
Qed.

Lemma recordAll_snoc calls c local :
  recordAll (calls ++ [c]) local =
  logRename (callTime c) (callOriginal c) (callRenamed c) (recordAll calls local).
Proof.
  revert local. induction calls as [|d calls IH]; intros local; [reflexivity|].
  cbn [app recordAll]. apply IH.
Qed.

(** The history after a series of calls: the events of the last fifty,
    the latest first. *)
Lemma getHistory_recordAll calls :
  getHistory (recordAll calls ∅) = take 50 (reverse (eventOf <$> calls)).
Proof.
  induction calls as [|c calls IH] using rev_ind; [reflexivity|].
  rewrite recordAll_snoc, getHistory_logRename, IH.
  rewrite fmap_app, reverse_app. cbn [fmap list_fmap reverse rev_append app].
  change (take 50 (?x :: ?l)) with (x :: take 49 l).
  rewrite take_take. reflexivity.
Qed.

Lemma newestFirst_logRename now o n local :
  newestFirst (getHistory local) →
  (∀ e, e ∈ getHistory local → (timestamp e ≤ now)%Z) →
  newestFirst (getHistory (logRename now o n local)).
Proof.
  intros Hs Hb i j a b Hij Ha Hj. rewrite getHistory_logRename in Ha, Hj.
  apply lookup_take_Some in Ha as [Ha _]. apply lookup_take_Some in Hj as [Hj _].
  destruct i as [|i], j as [|j]; cbn in Ha, Hj; try lia.
  - injection Ha as <-. injection Hj as <-. lia.
  - injection Ha as <-. cbn. apply Hb. apply list_elem_of_lookup. eauto.
  - apply (Hs i j a b); [lia | done | done].
Qed.

Lemma newestFirst_history calls :
  nonDecreasing calls → newestFirst (getHistory (recordAll calls ∅)).
Proof.
  intros Hc i j a b Hij Ha Hb. rewrite getHistory_recordAll in Ha, Hb.
  apply lookup_take_Some in Ha as [Ha _]. apply lookup_take_Some in Hb as [Hb _].
  pose proof (lookup_lt_Some _ _ _ Ha) as Hi.
  pose proof (lookup_lt_Some _ _ _ Hb) as Hj.
  rewrite length_reverse, length_fmap in Hi, Hj.
  rewrite reverse_lookup in Ha by (rewrite length_fmap; lia).
  rewrite reverse_lookup in Hb by (rewrite length_fmap; lia).
  rewrite length_fmap, list_lookup_fmap in Ha, Hb.
  destruct (calls !! (length calls - S i)) as [ca|] eqn:Ea; [|done].
  destruct (calls !! (length calls - S j)) as [cb|] eqn:Eb; [|done].
  cbn in Ha, Hb. injection Ha as <-. injection Hb as <-.
  apply (Hc (length calls - S j) (length calls - S i)); [lia | done | done].
Qed.

(** ** The extension *)

Lemma extensionOf_suffix lo hi pre w :
  isExtensionTail lo hi w = true →
  extensionOf lo hi (pre ++ 46%N :: w) = Some (46%N :: w).
Proof.
  intros Hw. induction pre as [|c pre IH]; cbn [app extensionOf].
  - rewrite Hw. reflexivity.
  - replace (isExtensionTail lo hi (pre ++ 46%N :: w)) with false.
    + rewrite andb_false_r. exact IH.
    + unfold isExtensionTail. rewrite forallb_app. cbn [forallb].
      change (isWord 46) with false. rewrite !andb_false_r. reflexivity.
Qed.

Lemma getExtension_of_filename s m mime :
  extensionOf 2 5 s = Some m →
  getExtension (Some s) mime = VString (toLowerCase m).
Proof.
  intros H. unfold getExtension, orEmpty. cbn [default from_option id].
  rewrite orElse_nil, match_file_extension, H. reflexivity.
Qed.

Lemma getExtension_of_mime filename mime :
  extensionOf 2 5 (orEmpty filename) = None →
  getExtension filename mime = getExtensionFromMime mime.
Proof.
  intros H. unfold getExtension. rewrite match_file_extension, H. reflexivity.
Qed.

(** Off the names Object.prototype defines, the table decides, and the
    default is [.png]. *)
Lemma getExtensionFromMime_table mime :
  Object_prototype !! toPropertyKey mime = None →
  ∃ e, getExtensionFromMime mime = VString e
       ∧ ((toPropertyKey mime, e) ∈ mimeRows
          ∨ ((toPropertyKey mime ∉ mimeRows.*1) ∧ e = lit ".png")).
Proof.
  intros Hp. unfold getExtensionFromMime, getProperty. cbn zeta.
  set (key := toPropertyKey mime) in *.
  match goal with |- context [?m !! key] =>
    destruct (m !! key) as [v|] eqn:E
  end.
  - apply elem_of_list_to_map_2 in E.
    repeat (apply elem_of_cons in E as [E|E];
            [injection E as Hk ->; eexists; split; [reflexivity|];
             left; rewrite Hk; unfold mimeRows;
             repeat constructor|]).
    apply elem_of_nil in E. done.
  - rewrite Hp. eexists. split; [reflexivity|]. right. split; [|reflexivity].
    apply not_elem_of_list_to_map_2 in E. exact E.
Qed.

(** * The claims *)

(** C1.  For every input string, the result of the sanitizer consists of
    lower-case letters, digits and hyphens only and has at most 60 code
    units; it is never the empty string: whenever the steps leave nothing
    (as they do for the empty string, for white space only and for hyphens
    only) the result is the literal [unnamed-file]. *)
Theorem sanitizeFilename_safe (s : jsstring) :
  matchesSafeName (sanitizeFilename s) = true
  ∧ length (sanitizeFilename s) ≤ 60
  ∧ sanitizeFilename s ≠ []
  ∧ (cleanAtReturn s = [] → sanitizeFilename s = lit "unnamed-file")
  ∧ (steps s = [] → sanitizeFilename s = lit "unnamed-file")
  ∧ (s = [] → sanitizeFilename s = lit "unnamed-file")
  ∧ (allWhiteSpace s = true → sanitizeFilename s = lit "unnamed-file")
  ∧ (allHyphens s = true → sanitizeFilename s = lit "unnamed-file").
Proof.
  destruct (sanitizeFilename_wellFormed s) as (H1 & _ & _ & _ & H5 & H6).
  repeat split; try assumption.
  - intros H. rewrite sanitizeFilename_return, H. reflexivity.
  - intros H. rewrite sanitizeFilename_return, cleanAtReturn_steps, H. reflexivity.
  - intros ->. reflexivity.
  - apply sanitizeFilename_allWhiteSpace.
  - apply sanitizeFilename_allHyphens.
Qed.

Lemma sanitizeFilename_safe_witness :
  sanitizeFilename [] = lit "unnamed-file"
  ∧ sanitizeFilename (lit "   ") = lit "unnamed-file"
  ∧ sanitizeFilename (lit "---") = lit "unnamed-file".
Proof.
  split; [|split].
  - destruct (sanitizeFilename_safe []) as (_ & _ & _ & _ & _ & H & _).
    apply H. reflexivity.
  - destruct (sanitizeFilename_safe (lit "   ")) as (_ & _ & _ & _ & _ & _ & H & _).
    apply H. reflexivity.
  - destruct (sanitizeFilename_safe (lit "---")) as (_ & _ & _ & _ & _ & _ & _ & H).
    apply H. reflexivity.
Defined.

(** C5.  The sanitizer is the eight steps of the specification in their
    order, followed by the fallback; on the quoted name
    [Golden_Retriever Park!!] followed by [.png] it gives
    [golden-retriever-park]. *)
Theorem sanitizeFilename_steps_in_order :
  (∀ s, sanitizeFilename s =
        match step8 (step7 (step6 (step5 (step4 (step3 (step2 (step1 s))))))) with
        | [] => lit "unnamed-file"
        | c :: r => c :: r
        end)
  ∧ sanitizeFilename goldenInput = lit "golden-retriever-park".
Proof.
  split; [intros s; apply sanitizeFilename_spec | reflexivity].
Qed.

(** C6.  The sanitizer cuts the intermediate result to its first 60 code
    units and then strips the hyphens left at the end; a result never ends
    with a hyphen, and a hundred letters [a] give sixty of them. *)
Theorem sanitizeFilename_truncates :
  (∀ s, sanitizeFilename s =
        orElse (replace re_trailing_hyphens [] (substring 0 60 (cleanBeforeLimit s)))
               (lit "unnamed-file"))
  ∧ (∀ s, length (sanitizeFilename s) ≤ 60
          ∧ last (sanitizeFilename s) ≠ Some 45%N)
  ∧ sanitizeFilename (replicate 100 97%N) = replicate 60 97%N
  ∧ length (sanitizeFilename (replicate 100 97%N)) = 60
  ∧ last (sanitizeFilename (replicate 100 97%N)) ≠ Some 45%N.
Proof.
  split; [|split; [|split; [|split]]];
    [| |vm_compute; reflexivity|vm_compute; reflexivity|vm_compute; discriminate].
  - intros s. rewrite sanitizeFilename_limit, replace_trailing_hyphens.
    destruct (cleanBeforeLimit_shape s) as (_ & _ & _ & H4).
    set (t := cleanBeforeLimit s) in *. unfold substring.
    destruct (Nat.ltb_spec 60 (length t)) as [L|L].
    + replace (60 `min` length t) with 60 by lia. reflexivity.
    + replace (60 `min` length t) with (length t) by lia.
      cbn [Nat.min Nat.max]. rewrite Nat.sub_0_r, drop_0, firstn_all, H4.
      reflexivity.
  - intros s.
    destruct (sanitizeFilename_wellFormed s) as (_ & _ & _ & H4 & H5 & _).
    split; [exact H5|]. intros Hl.
    pose proof (dropTrailing_fixed_last _ _ _ H4 Hl) as Hc. discriminate.
Qed.

(** C9.  The sanitizer is idempotent: each of its results, the fallback
    included, is a fixed point. *)
Theorem sanitizeFilename_idempotent (s : jsstring) :
  sanitizeFilename (sanitizeFilename s) = sanitizeFilename s
  ∧ sanitizeFilename (lit "unnamed-file") = lit "unnamed-file".
Proof.
  split; [|reflexivity].
  apply sanitizeFilename_fixes, sanitizeFilename_wellFormed.
Qed.

(** C2.  The rename history never holds more than 50 events: the empty
    history is within the bound, every record operation keeps it (and
    restores it), so it holds after any series of calls; after 60 calls on an
    empty history the list has exactly 50 events and its first is the event of
    the 60th call. *)
Theorem history_at_most_50 :
  length (getHistory ∅) ≤ 50
  ∧ (∀ now o n local,
       length (getHistory local) ≤ 50 →
       length (getHistory (logRename now o n local)) ≤ 50)
  ∧ (∀ calls, length (getHistory (recordAll calls ∅)) ≤ 50)
  ∧ (∀ calls, length calls = 60 →
       length (getHistory (recordAll calls ∅)) = 50
       ∧ getHistory (recordAll calls ∅) !! 0 = eventOf <$> calls !! 59).
Proof.
  split; [unfold getHistory; rewrite lookup_empty; cbn; lia|]. split; [|split].
  - intros now o n local _. rewrite getHistory_logRename, length_take. lia.
  - intros calls. rewrite getHistory_recordAll, length_take. lia.
  - intros calls Hlen. rewrite getHistory_recordAll. split.
    + rewrite length_take, length_reverse, length_fmap. lia.
    + rewrite lookup_take_lt by lia.
      rewrite reverse_lookup by (rewrite length_fmap; lia).
      rewrite length_fmap, Hlen, list_lookup_fmap. reflexivity.
Qed.

Lemma history_at_most_50_witness :
  length (getHistory (logRename 0 [] [] ∅)) ≤ 50
  ∧ length (getHistory (recordAll sixtyCalls ∅)) = 50
  ∧ getHistory (recordAll sixtyCalls ∅) !! 0 = eventOf <$> sixtyCalls !! 59.
Proof.
  destruct history_at_most_50 as (H0 & Hstep & _ & H60). split.
  - apply Hstep. exact H0.
  - apply (H60 sixtyCalls). reflexivity.
Defined.

(** C7.  A record operation builds an event stamped with the clock reading
    of the call, puts it first and keeps the first 50; so when the clock
    never goes back between calls the list is ordered most recent first. *)
Theorem record_newest_first :
  (∀ now o n local,
     getHistory (logRename now o n local)
       = take 50 (mkEvent o n now :: getHistory local)
     ∧ getHistory (logRename now o n local) !! 0 = Some (mkEvent o n now)
     ∧ timestamp (mkEvent o n now) = now)
  ∧ (∀ now o n local,
       newestFirst (getHistory local) →
       (∀ e, e ∈ getHistory local → (timestamp e ≤ now)%Z) →
       newestFirst (getHistory (logRename now o n local)))
  ∧ (∀ calls, nonDecreasing calls →
       newestFirst (getHistory (recordAll calls ∅))).
Proof.
  split; [|split].
  - intros now o n local. rewrite getHistory_logRename. done.
  - apply newestFirst_logRename.
  - apply newestFirst_history.
Qed.

Lemma record_newest_first_witness :
  newestFirst
    (getHistory (recordAll [mkCall 10 [] []; mkCall 10 [] []; mkCall 25 [] []] ∅)).
Proof.
  apply (proj2 (proj2 record_newest_first)).
  intros [|[|[|i]]] [|[|[|j]]] a b Hij Ha Hb; cbn in Ha, Hb;
    try discriminate; try lia;
    injection Ha as <-; injection Hb as <-; cbn; lia.
Defined.

(** C3.  When the file name ends with a dot and 2 to 5 word characters, the
    resolver returns that suffix in lower case whatever the mime type is;
    [photo.JPG] with [image/png] gives [.jpg]. *)
Theorem getExtension_filename_wins :
  (∀ pre w mime,
     2 ≤ length w ≤ 5 → forallb isWord w = true →
     getExtension (Some (pre ++ 46%N :: w)) mime
       = VString (toLowerCase (46%N :: w)))
  ∧ getExtension (Some (lit "photo.JPG")) (Some (lit "image/png"))
    = VString (lit ".jpg").
Proof.
  split; [|vm_compute; reflexivity].
  intros pre w mime [Hlo Hhi] Hw. apply getExtension_of_filename.
  apply extensionOf_suffix. unfold isExtensionTail. rewrite Hw, andb_true_r.
  apply andb_true_iff. split; apply Nat.leb_le; assumption.
Qed.

Lemma getExtension_filename_wins_witness :
  getExtension (Some (lit "archive.TAR" ++ 46%N :: lit "Gz"))
               (Some (lit "constructor"))
  = VString (toLowerCase (46%N :: lit "Gz")).
Proof.
  apply getExtension_filename_wins; [cbn; lia | reflexivity].
Defined.

(** C4.  Without an extension in the file name the resolver looks the mime
    type up in an object literal, and the lookup also finds what the literal
    inherits: for the mime type [constructor] the result is the inherited
    function, neither the default [.png] nor any string. *)
Theorem getExtensionFromMime_inherited :
  extensionOf 2 5 (orEmpty None) = None
  ∧ getExtension None (Some (lit "constructor")) = VNative "constructor"
  ∧ getExtensionFromMime (Some (lit "constructor")) = VNative "constructor"
  ∧ (∀ e, getExtension None (Some (lit "constructor")) ≠ VString e).
Proof.
  assert (getExtension None (Some (lit "constructor")) = VNative "constructor")
    as H by (vm_compute; reflexivity).
  repeat split; try (vm_compute; reflexivity).
  intros e. rewrite H. discriminate.
Qed.

(** Every other mime type, present or not, resolves through the eight rows
    to a string that begins with a dot. *)
Lemma getExtension_by_table filename mime :
  extensionOf 2 5 (orEmpty filename) = None →
  Object_prototype !! toPropertyKey mime = None →
  ∃ e, getExtension filename mime = VString e
       ∧ ((toPropertyKey mime, e) ∈ mimeRows
          ∨ ((toPropertyKey mime ∉ mimeRows.*1) ∧ e = lit ".png"))
       ∧ head e = Some 46%N.
Proof.
  intros Hf Hp. rewrite (getExtension_of_mime _ _ Hf).
  destruct (getExtensionFromMime_table mime Hp) as (e & He & Hrow).
  exists e. split; [exact He|]. split; [exact Hrow|].
  destruct Hrow as [Hrow|[_ ->]]; [|reflexivity].
  unfold mimeRows in Hrow.
  repeat (apply elem_of_cons in Hrow as [Hrow|Hrow];
          [injection Hrow as _ ->; reflexivity|]).
  apply elem_of_nil in Hrow. done.
Qed.

(** C8 (as amended).  The age label is a function of the event's time stamp
    and the current time alone, by floor division: [Just now], with a
    capital J, under 60 seconds; then the minutes, the hours or the days,
    each the floor of the quotient, which is also the floor of the age in
    milliseconds by 60000, 3600000 and 86400000. *)
Theorem timeAgo_floor (now timestamp : Z) :
  let seconds := ((now - timestamp) / 1000)%Z in
  let minutes := (seconds / 60)%Z in
  let hours := (minutes / 60)%Z in
  let days := (hours / 24)%Z in
  ((seconds < 60)%Z → timeAgo now timestamp = lit "Just now")
  ∧ ((60 ≤ seconds)%Z → (minutes < 60)%Z →
       timeAgo now timestamp = numberToString minutes ++ lit "m ago")
  ∧ ((60 ≤ minutes)%Z → (hours < 24)%Z →
       timeAgo now timestamp = numberToString hours ++ lit "h ago")
  ∧ ((24 ≤ hours)%Z →
       timeAgo now timestamp = numberToString days ++ lit "d ago")
  ∧ minutes = ((now - timestamp) / 60000)%Z
  ∧ hours = ((now - timestamp) / 3600000)%Z
  ∧ days = ((now - timestamp) / 86400000)%Z.
Proof.
  cbn zeta. unfold timeAgo. cbn zeta.
  set (seconds := ((now - timestamp) / 1000)%Z).
  assert (∀ a b c : Z, (0 < b)%Z → (0 < c)%Z → (a / b / c = a / (b * c))%Z) as Hdd.
  { intros a b c Hb Hc. apply Z.div_div; lia. }
  repeat split.
  - intros H. destruct (Z.ltb_spec seconds 60); [reflexivity | lia].
  - intros H1 H2. destruct (Z.ltb_spec seconds 60); [lia|].
    destruct (Z.ltb_spec (seconds / 60) 60); [reflexivity | lia].
  - intros H1 H2.
    assert (60 ≤ seconds)%Z.
    { destruct (Z.le_gt_cases 60 seconds) as [|Hs]; [assumption|].
      assert (seconds / 60 < 60)%Z; [|lia].
      apply Z.div_lt_upper_bound; lia. }
    destruct (Z.ltb_spec seconds 60); [lia|].
    destruct (Z.ltb_spec (seconds / 60) 60); [lia|].
    destruct (Z.ltb_spec (seconds / 60 / 60) 24); [reflexivity | lia].
  - intros H1.
    assert (60 ≤ seconds / 60)%Z.
    { destruct (Z.le_gt_cases 60 (seconds / 60)) as [|Hs]; [assumption|].
      assert (seconds / 60 / 60 < 24)%Z; [|lia].
      apply Z.div_lt_upper_bound; lia. }
    assert (60 ≤ seconds)%Z.
    { destruct (Z.le_gt_cases 60 seconds) as [|Hs]; [assumption|].
      assert (seconds / 60 < 60)%Z; [|lia].
      apply Z.div_lt_upper_bound; lia. }
    destruct (Z.ltb_spec seconds 60); [lia|].
    destruct (Z.ltb_spec (seconds / 60) 60); [lia|].
    destruct (Z.ltb_spec (seconds / 60 / 60) 24); [lia | reflexivity].
  - unfold seconds. rewrite Hdd by lia. reflexivity.
  - unfold seconds. rewrite !Hdd by lia. reflexivity.
  - unfold seconds. rewrite !Hdd by lia. reflexivity.
Qed.

Lemma timeAgo_floor_witness :
  timeAgo 59999 0 = lit "Just now"
  ∧ timeAgo 3599999 0 = lit "59m ago"
  ∧ timeAgo 86399999 0 = lit "23h ago"
  ∧ timeAgo 1700000000000 1699740800000 = lit "3d ago".
Proof.
  split; [|split; [|split]].
  - apply (timeAgo_floor 59999 0). vm_compute. reflexivity.
  - apply (proj1 (proj2 (timeAgo_floor 3599999 0))); vm_compute; congruence.
  - apply (proj1 (proj2 (proj2 (timeAgo_floor 86399999 0)))); vm_compute; congruence.
  - apply (proj1 (proj2 (proj2 (proj2
             (timeAgo_floor 1700000000000 1699740800000))))).
    vm_compute. congruence.
Defined.

(** C8 as stated fails: under 60 seconds the label is not the lower-case
    [just now]. *)
Lemma timeAgo_not_lower_case :
  ((5000 - 0) / 1000 < 60)%Z ∧ timeAgo 5000 0 ≠ lit "just now".
Proof. split; [vm_compute; reflexivity | vm_compute; discriminate]. Qed.

(** C10.  A download whose mime type does not start with [image/] and whose
    file name, lower-cased, ends with none of the seven image extensions gets
    the empty suggestion at once: the listener makes no other call (none to
    the sanitizer, the resolver or the history), leaves the store as it is
    and does not announce a later suggestion. *)
Theorem listener_skips_other_files (h : Host) (downloadItem : DownloadItem)
    (local : gmap string (list RenameEvent)) :
  startsWith (mime downloadItem) (lit "image/") = false →
  (∀ ext, ext ∈ IMAGE_EXTENSIONS →
     endsWith (toLowerCase (filename downloadItem)) ext = false) →
  onDeterminingFilename h downloadItem local = ([Suggest None], local, false)
  ∧ existsb callsSanitizer (onDeterminingFilename h downloadItem local).1.1 = false
  ∧ existsb callsResolver (onDeterminingFilename h downloadItem local).1.1 = false
  ∧ existsb callsRecord (onDeterminingFilename h downloadItem local).1.1 = false
  ∧ getHistory (onDeterminingFilename h downloadItem local).1.2 = getHistory local.
Proof.
  intros Hm Hf.
  assert (onDeterminingFilename h downloadItem local = ([Suggest None], local, false))
    as ->; [|repeat split; reflexivity].
  unfold onDeterminingFilename. cbn zeta. rewrite !orElse_nil.
  replace (isImageFile (mime downloadItem) (filename downloadItem)) with false;
    [reflexivity|].
  unfold isImageFile. rewrite Hm, andb_false_r, orElse_nil. symmetry.
  apply not_true_is_false. intros (ext & Hin & He)%existsb_exists.
  rewrite Hf in He by (apply list_elem_of_In; exact Hin). discriminate.
Qed.

Lemma listener_skips_other_files_witness :
  onDeterminingFilename idleHost pdfDownload ∅ = ([Suggest None], ∅, false).
Proof.
  apply (listener_skips_other_files idleHost pdfDownload ∅).
  - reflexivity.
  - intros ext Hin. unfold IMAGE_EXTENSIONS in Hin.
    repeat (apply elem_of_cons in Hin as [->|Hin]; [reflexivity|]).
    apply elem_of_nil in Hin. destruct Hin.
Defined.

(** * Further properties *)

Import Groups More.


(** ** Prefixes and suffixes *)

Lemma startsWith_app s t : startsWith (s ++ t) s = true.
Proof.
  induction s as [|c s IH]; [destruct t; reflexivity|].
  cbn [app startsWith]. rewrite N.eqb_refl. exact IH.
Qed.

Lemma startsWith_prefix s p : startsWith s p = true → s = p ++ drop (length p) s.
Proof.
  revert s. induction p as [|x p IH]; intros s H; [reflexivity|].
  destruct s as [|c s]; [discriminate|]. cbn [startsWith] in H.
  apply andb_true_iff in H as [Hc Hs]. apply N.eqb_eq in Hc as ->.
  cbn [app length drop]. f_equal. apply IH, Hs.
Qed.

Lemma endsWith_app s t : endsWith (s ++ t) t = true.
Proof. unfold endsWith. rewrite rev_app_distr. apply startsWith_app. Qed.

Lemma endsWith_suffix s t :
  endsWith s t = true → s = take (length s - length t) s ++ t.
Proof.
  unfold endsWith. intros H. apply startsWith_prefix in H.
  rewrite length_rev in H.
  assert (s = rev (rev t ++ drop (length t) (rev s))) as E
    by (rewrite <- H, rev_involutive; reflexivity).
  rewrite rev_app_distr, rev_involutive in E. clear H.
  set (u := rev (drop (length t) (rev s))) in E. clearbody u. subst s.
  rewrite length_app, Nat.add_sub, take_app_length. reflexivity.
Qed.

Lemma toLowerCase_app s t : toLowerCase (s ++ t) = toLowerCase s ++ toLowerCase t.
Proof. apply map_app. Qed.

Lemma toLowerCase_length s : length (toLowerCase s) = length s.
Proof. apply length_map. Qed.

Lemma toLowerCase_take n s : toLowerCase (take n s) = take n (toLowerCase s).
Proof. unfold toLowerCase. symmetry. apply firstn_map. Qed.

Lemma toLowerCase_drop n s : toLowerCase (drop n s) = drop n (toLowerCase s).
Proof. unfold toLowerCase. symmetry. apply skipn_map. Qed.

(** The lower-cased name ends with [ext] exactly when the name ends with
    a spelling of [ext] in some mix of cases. *)
Lemma endsWith_toLowerCase s ext :
  endsWith (toLowerCase s) ext = true ↔
  ∃ pre suf, s = pre ++ suf ∧ toLowerCase suf = ext.
Proof.
  split.
  - intros H. apply endsWith_suffix in H. rewrite toLowerCase_length in H.
    exists (take (length s - length ext) s), (drop (length s - length ext) s).
    split; [symmetry; apply take_drop|].
    rewrite toLowerCase_drop. rewrite H at 1.
    rewrite drop_app_length'; [reflexivity|].
    rewrite length_take, toLowerCase_length. lia.
  - intros (pre & suf & -> & <-). rewrite toLowerCase_app. apply endsWith_app.
Qed.

(** ** isImageFile *)

Lemma isImageFile_iff mime filename :
  isImageFile mime filename = true ↔
  startsWith mime (lit "image/") = true
  ∨ ∃ pre suf, filename = pre ++ suf ∧ toLowerCase suf ∈ IMAGE_EXTENSIONS.
Proof.
  unfold isImageFile. rewrite orElse_nil.
  destruct (startsWith mime (lit "image/")) eqn:Hm.
  - replace (bool_decide (mime = [])) with false
      by (destruct mime; [discriminate Hm | reflexivity]).
    cbn. tauto.
  - rewrite andb_false_r. rewrite existsb_exists. split.
    + intros (ext & Hin & He). right.
      apply endsWith_toLowerCase in He as (pre & suf & -> & <-).
      exists pre, suf. split; [reflexivity|]. apply list_elem_of_In, Hin.
    + intros [?|(pre & suf & -> & Hin)]; [discriminate|].
      exists (toLowerCase suf). split; [apply list_elem_of_In, Hin|].
      apply endsWith_toLowerCase. eauto.
Qed.

(** ** The extension on the listener's path *)

Lemma lower_is_dot c : asciiLower c = 46%N → c = 46%N.
Proof. char_facts. Qed.

Lemma lower_letter_is_word c : isLower (asciiLower c) = true → isWord c = true.
Proof. char_facts. Qed.

Lemma isWord_asciiLower c : isWord (asciiLower c) = isWord c.
Proof. char_facts. Qed.

Lemma lower_is_lower c : asciiLower (asciiLower c) = asciiLower c.
Proof. char_facts. Qed.

Lemma toLowerCase_idem s : toLowerCase (toLowerCase s) = toLowerCase s.
Proof.
  unfold toLowerCase. rewrite map_map. apply map_ext. intros c. apply lower_is_lower.
Qed.

Lemma forallb_isWord_toLowerCase w :
  forallb isWord (toLowerCase w) = forallb isWord w.
Proof.
  unfold toLowerCase. induction w as [|c w IH]; [reflexivity|].
  cbn [List.map forallb]. rewrite IH, isWord_asciiLower. reflexivity.
Qed.

Lemma isExtensionTail_toLowerCase lo hi w :
  isExtensionTail lo hi (toLowerCase w) = isExtensionTail lo hi w.
Proof.
  unfold isExtensionTail.
  rewrite toLowerCase_length, forallb_isWord_toLowerCase. reflexivity.
Qed.

Lemma extensionOf_Some lo hi s m :
  extensionOf lo hi s = Some m →
  ∃ pre w, s = pre ++ 46%N :: w ∧ m = 46%N :: w ∧ isExtensionTail lo hi w = true.
Proof.
  induction s as [|c s IH]; [discriminate|]. cbn [extensionOf].
  destruct (isDot c && isExtensionTail lo hi s) eqn:E.
  - intros [= <-]. apply andb_true_iff in E as [Hc Hw].
    apply N.eqb_eq in Hc as ->. exists [], s. done.
  - intros H. destruct (IH H) as (pre & w & -> & -> & Hw).
    exists (c :: pre), w. done.
Qed.

(** A suffix that lower-cases to a dot and lower-case letters is a dot and
    word characters. *)
Lemma lower_case_suffix suf e :
  toLowerCase suf = 46%N :: e → forallb isLower e = true →
  ∃ w, suf = 46%N :: w ∧ forallb isWord w = true ∧ length w = length e.
Proof.
  destruct suf as [|c w]; [discriminate|]. unfold toLowerCase. cbn [List.map].
  intros [= Hc He] Hl. apply lower_is_dot in Hc as ->. exists w.
  split; [reflexivity|]. subst e. rewrite length_map. split; [|reflexivity].
  induction w as [|x w IH]; [reflexivity|]. cbn [List.map forallb] in *.
  apply andb_true_iff in Hl as [Hx Hw].
  rewrite (lower_letter_is_word x Hx), (IH Hw). reflexivity.
Qed.

Lemma image_extension_tail suf :
  toLowerCase suf ∈ IMAGE_EXTENSIONS →
  ∃ w, suf = 46%N :: w ∧ isExtensionTail 2 5 w = true.
Proof.
  intros Hin. unfold IMAGE_EXTENSIONS in Hin. cbn [fmap list_fmap] in Hin.
  assert (∃ e, toLowerCase suf = 46%N :: e ∧ forallb isLower e = true
               ∧ 2 ≤ length e ≤ 5) as (e & He & Hl & Hn).
  { repeat (apply elem_of_cons in Hin as [Hin|Hin];
            [rewrite Hin; eexists; split; [reflexivity|];
             split; [reflexivity | cbn; lia]|]).
    apply elem_of_nil in Hin. done. }
  destruct (lower_case_suffix suf e He Hl) as (w & -> & Hw & Hlen).
  exists w. split; [reflexivity|]. unfold isExtensionTail. rewrite Hw, andb_true_r.
  apply andb_true_iff. split; apply Nat.leb_le; lia.
Qed.

Lemma image_mime_not_inherited mime :
  startsWith mime (lit "image/") = true → Object_prototype !! mime = None.
Proof.
  intros H. apply startsWith_prefix in H.
  apply not_elem_of_list_to_map_1. rewrite H. clear H.
  cbn. intros Hin.
  repeat (apply elem_of_cons in Hin as [Hin|Hin]; [discriminate Hin|]).
  apply elem_of_nil in Hin. done.
Qed.

Lemma extensionOf_None_not_image filename :
  extensionOf 2 5 filename = None →
  ¬ ∃ pre suf, filename = pre ++ suf ∧ toLowerCase suf ∈ IMAGE_EXTENSIONS.
Proof.
  intros Hn (pre & suf & -> & Hin).
  destruct (image_extension_tail suf Hin) as (w & -> & Hw).
  rewrite (extensionOf_suffix 2 5 pre w Hw) in Hn. discriminate.
Qed.



Lemma word_lower_is_fileNameUnit c :
  isWord c = true → isFileNameUnit (asciiLower c) = true.
Proof. unfold isFileNameUnit. char_facts. Qed.

Lemma safe_is_fileNameUnit c :
  isLowerAlnumHyphen c = true → isFileNameUnit c = true.
Proof. unfold isFileNameUnit. intros ->. reflexivity. Qed.

Lemma listener_extension mime filename :
  isImageFile mime filename = true →
  ∃ e, getExtension (Some filename) (Some mime) = VString e
       ∧ head e = Some 46%N ∧ 3 ≤ length e ≤ 6
       ∧ forallb isFileNameUnit e = true.
Proof.
  intros Hi. destruct (extensionOf 2 5 filename) as [m|] eqn:E.
  - rewrite (getExtension_of_filename _ _ _ E).
    destruct (extensionOf_Some _ _ _ _ E) as (pre & w & _ & -> & Hw).
    eexists. split; [reflexivity|]. split; [reflexivity|].
    rewrite toLowerCase_length. cbn [length]. unfold isExtensionTail in Hw.
    apply andb_true_iff in Hw as [Hw Hword]. apply andb_true_iff in Hw as [H2 H5].
    apply Nat.leb_le in H2, H5. split; [lia|].
    unfold toLowerCase. cbn [List.map forallb]. apply andb_true_iff.
    split; [reflexivity|]. clear -Hword.
    induction w as [|c w IH]; [reflexivity|]. cbn [List.map forallb] in *.
    apply andb_true_iff in Hword as [Hc Hw].
    rewrite (word_lower_is_fileNameUnit c Hc), (IH Hw). reflexivity.
  - apply isImageFile_iff in Hi as [Hm|Hf];
      [|destruct (extensionOf_None_not_image _ E Hf)].
    assert (extensionOf 2 5 (orEmpty (Some filename)) = None) as E'.
    { unfold orEmpty. cbn [default from_option id]. rewrite orElse_nil. exact E. }
    destruct (getExtension_by_table (Some filename) (Some mime) E'
                (image_mime_not_inherited mime Hm)) as (e & He & Hrow & Hh).
    exists e. split; [exact He|]. split; [exact Hh|].
    destruct Hrow as [Hrow|[_ ->]]; [|split; [cbn; lia | reflexivity]].
    unfold mimeRows in Hrow.
    repeat (apply elem_of_cons in Hrow as [Hrow|Hrow];
            [injection Hrow as _ ->; split; [cbn; lia | reflexivity]|]).
    apply elem_of_nil in Hrow. done.
Qed.

(** ** What the listener can come to *)

(** Either nothing happens but the empty suggestion, or the whole renaming
    sequence does. *)
Lemma listener_outcome h downloadItem local :
  (onDeterminingFilename h downloadItem local).1 = ([Suggest None], local)
  ∨ ∃ text,
      isImageFile (mime downloadItem) (filename downloadItem) = true
      ∧ enabled (settings h) = true ∧ apiKey (settings h) ≠ []
      ∧ let stem := sanitizeFilename (trim text) in
        let f := stem ++ toString h (getExtension (Some (filename downloadItem))
                                                  (Some (mime downloadItem))) in
        onDeterminingFilename h downloadItem local =
          ([CallSanitizeFilename (trim text);
            CallGetExtension (filename downloadItem) (mime downloadItem);
            CallLogRename (filename downloadItem) f;
            SetBadgeText (lit "AI");
            Suggest (Some f)],
           logRename (clock h) (filename downloadItem) f local, true).
Proof.
  unfold onDeterminingFilename. cbn zeta. rewrite !orElse_nil.
  destruct (isImageFile (mime downloadItem) (filename downloadItem)) eqn:Hi;
    [|left; reflexivity].
  cbn [negb]. unfold handleDownloadRename.
  destruct (enabled (settings h)) eqn:He; [|left; reflexivity].
  destruct (bool_decide (apiKey (settings h) = [])) eqn:Hk; [left; reflexivity|].
  apply bool_decide_eq_false in Hk. cbn [negb orb].
  destruct (fetchImageAsBase64 h (url downloadItem)) as [[mimeType data]|];
    [|left; reflexivity].
  unfold getAIFilename.
  destruct (generate h data mimeType (apiKey (settings h))) as [| |[[|c t]|]];
    try (left; reflexivity).
  destruct (sanitizeFilename (trim (c :: t))) as [|x n] eqn:Es.
  { pose proof (sanitizeFilename_wellFormed (trim (c :: t))) as (_&_&_&_&_&Hne).
    rewrite Es in Hne. done. }
  right. exists (c :: t). rewrite Es. done.
Qed.


(** X4.  A replacement the listener suggests is a well-formed stem followed by
    an extension of 3 to 6 units that starts with a dot; it has at most 66
    units, all of them lower-case letters, digits, hyphen, underscore or dot. *)
Theorem listener_replacement_shape (h : Host) (downloadItem : DownloadItem)
    (local : gmap string (list RenameEvent)) (f : jsstring) :
  Suggest (Some f) ∈ (onDeterminingFilename h downloadItem local).1.1 →
  ∃ stem e,
    f = stem ++ e
    ∧ wellFormedName stem
    ∧ head e = Some 46%N ∧ 3 ≤ length e ≤ 6
    ∧ length f ≤ 66
    ∧ forallb isFileNameUnit f = true.
Proof.
  destruct (listener_outcome h downloadItem local) as [H|(text & Hi & _ & _ & H)].
  - rewrite H. cbn. intros Hin. apply list_elem_of_singleton in Hin. discriminate.
  - cbn zeta in H. rewrite H. cbn [fst]. intros Hin.
    repeat (apply elem_of_cons in Hin as [Hin|Hin]; [try discriminate Hin|]);
      [|apply elem_of_nil in Hin; done].
    injection Hin as ->.
    destruct (listener_extension _ _ Hi) as (e & He & Hh & Hl & Hu).
    rewrite He. cbn [toString].
    pose proof (sanitizeFilename_wellFormed (trim text)) as Hw.
    exists (sanitizeFilename (trim text)), e.
    split; [reflexivity|]. split; [exact Hw|]. split; [exact Hh|].
    split; [exact Hl|]. destruct Hw as (Hs & _ & _ & _ & H60 & _).
    split; [rewrite length_app; lia|].
    rewrite forallb_app, Hu, andb_true_r.
    revert Hs. apply forallb_impl, safe_is_fileNameUnit.
Qed.

(** X6.  The listener changes the stored history exactly when it suggests a
    replacement: then the event of the download's file name, the replacement
    and the clock reading is put first and the first 50 are kept; otherwise
    the store is left as it is. *)
Theorem listener_records_replacements (h : Host) (downloadItem : DownloadItem)
    (local : gmap string (list RenameEvent)) :
  (∀ f, Suggest (Some f) ∈ (onDeterminingFilename h downloadItem local).1.1 →
        getHistory (onDeterminingFilename h downloadItem local).1.2 =
        take 50 (mkEvent (filename downloadItem) f (clock h) :: getHistory local))
  ∧ ((∀ f, Suggest (Some f) ∉ (onDeterminingFilename h downloadItem local).1.1) →
     (onDeterminingFilename h downloadItem local).1.2 = local).
Proof.
  destruct (listener_outcome h downloadItem local) as [H|(text & _ & _ & _ & H)].
  - rewrite H. cbn [fst snd]. split; [|reflexivity].
    intros f Hin. apply list_elem_of_singleton in Hin. discriminate.
  - cbn zeta in H. rewrite H. cbn [fst snd]. split.
    + intros f Hin.
      repeat (apply elem_of_cons in Hin as [Hin|Hin]; [try discriminate Hin|]);
        [|apply elem_of_nil in Hin; done].
      injection Hin as ->. apply getHistory_logRename.
    + intros Hno. exfalso. eapply Hno. repeat constructor.
Qed.

(** X7.  When the original file name ends with a dot and 2 to 5 word
    characters, the replacement ends with that extension in lower case, and
    the resolver finds the same extension again in the replacement. *)
Theorem rename_keeps_extension (h : Host) (downloadItem : DownloadItem)
    (local : gmap string (list RenameEvent)) (pre w f : jsstring) :
  filename downloadItem = pre ++ 46%N :: w →
  2 ≤ length w ≤ 5 → forallb isWord w = true →
  Suggest (Some f) ∈ (onDeterminingFilename h downloadItem local).1.1 →
  (∃ stem, f = stem ++ toLowerCase (46%N :: w) ∧ wellFormedName stem)
  ∧ ∀ mime', getExtension (Some f) mime' = VString (toLowerCase (46%N :: w)).
Proof.
  intros Hf Hlen Hw.
  assert (isExtensionTail 2 5 w = true) as Ht.
  { unfold isExtensionTail. rewrite Hw, andb_true_r.
    apply andb_true_iff. split; apply Nat.leb_le; lia. }
  destruct (listener_outcome h downloadItem local) as [H|(text & _ & _ & _ & H)].
  - rewrite H. cbn. intros Hin. apply list_elem_of_singleton in Hin. discriminate.
  - cbn zeta in H. rewrite H. cbn [fst]. intros Hin.
    repeat (apply elem_of_cons in Hin as [Hin|Hin]; [try discriminate Hin|]);
      [|apply elem_of_nil in Hin; done].
    injection Hin as ->.
    rewrite (getExtension_of_filename (filename downloadItem) (46%N :: w))
      by (rewrite Hf; apply extensionOf_suffix, Ht).
    cbn [toString]. split.
    + eexists. split; [reflexivity | apply sanitizeFilename_wellFormed].
    + intros mime'.
      rewrite (getExtension_of_filename _ (toLowerCase (46%N :: w))).
      * rewrite toLowerCase_idem. reflexivity.
      * change (toLowerCase (46%N :: w)) with (46%N :: toLowerCase w).
        apply extensionOf_suffix. rewrite isExtensionTail_toLowerCase. exact Ht.
Qed.

(** X8.  With the switch stored as off, or with no key stored (as on a fresh
    installation), or an empty one, every download gets the empty suggestion
    and the history is not touched. *)
Theorem listener_needs_key_and_switch (sync : Sync.store)
    (fetch : jsstring → Net.fetched)
    (generate : jsstring → jsstring → jsstring → response) (clock : Z)
    (nativeToString : string → jsstring) (downloadItem : DownloadItem)
    (local : gmap string (list RenameEvent)) :
  Sync.storedEnabled sync = Some false ∨ Sync.storedApiKey sync = None
  ∨ Sync.storedApiKey sync = Some [] →
  (onDeterminingFilename (hostOf sync fetch generate clock nativeToString)
     downloadItem local).1 = ([Suggest None], local).
Proof.
  intros Hs.
  destruct (listener_outcome (hostOf sync fetch generate clock nativeToString)
              downloadItem local) as [H|(text & _ & He & Hk & _)]; [exact H|].
  exfalso. cbn in He, Hk. destruct Hs as [Hs|[Hs|Hs]]; rewrite Hs in *; done.
Qed.

(** ** Matches with groups *)

Lemma bump_cons_0 (x : option (list nat)) : bump (cons 0 <$> x) = cons 1 <$> x.
Proof. destruct x; reflexivity. Qed.

Lemma rep_terms_none p k b s : rep_terms p 0 (Some 0) k b s = cons 0 <$> k b s.
Proof. destruct s; simpl; [reflexivity|]. rewrite andb_false_r. reflexivity. Qed.

Lemma rep_terms_one p k b s :
  rep_terms p 1 (Some 1) k b s =
  match s with
  | c :: s' => if p c then cons 1 <$> k false s' else None
  | [] => None
  end.
Proof.
  destruct s as [|c s]; [reflexivity|].
  cbn [rep_terms can_take pred fmap option_fmap option_map]. rewrite andb_true_r.
  destruct (p c); [|reflexivity].
  rewrite rep_terms_none, bump_cons_0. destruct (k false s); reflexivity.
Qed.

(** A literal run matches its own text and nothing else. *)
Lemma match_terms_lits l r b s :
  match_terms ((chr <$> l) ++ r) b s =
  if startsWith s l
  then app (replicate (length l) 1)
         <$> match_terms r (match l with [] => b | _ :: _ => false end)
                         (drop (length l) s)
  else None.
Proof.
  revert b s. induction l as [|x l IH]; intros b s.
  - destruct s; cbn; destruct (match_terms r b _); reflexivity.
  - cbn [fmap list_fmap app match_terms chr]. rewrite rep_terms_one.
    destruct s as [|c s]; [reflexivity|]. cbn [startsWith length drop replicate].
    rewrite (N.eqb_sym x c). destruct (c =? x)%N; [|reflexivity]. cbn [andb].
    fold (chr <$> l). rewrite IH. destruct (startsWith s l); [|reflexivity].
    destruct l; destruct (match_terms r false _); reflexivity.
Qed.

(** A repeated class whose sequel cannot start inside the class takes the
    whole run: backtracking into the run never helps. *)
Section Committed.
Variable p : N → bool.
Variable k : bool → jsstring → option (list nat).
Hypothesis sequel_outside : ∀ b c s, p c = true → k b (c :: s) = None.
Hypothesis sequel_anywhere : ∀ b b' s, k b s = k b' s.

Lemma rep_terms_committed lo b s :
  rep_terms p lo None k b s =
  if lo <=? runLength p s
  then cons (runLength p s) <$> k false (drop (runLength p s) s)
  else None.
Proof.
  revert lo b. induction s as [|c s IH]; intros lo b.
  - cbn. destruct lo; [|reflexivity]. rewrite (sequel_anywhere b false). reflexivity.
  - cbn [rep_terms runLength can_take]. rewrite andb_true_r.
    destruct (p c) eqn:Hc.
    + rewrite IH. cbn [drop].
      destruct lo as [|lo]; cbn [pred Nat.leb].
      * destruct (k false (drop (runLength p s) s)); cbn; [reflexivity|].
        rewrite (sequel_outside b c s Hc). reflexivity.
      * destruct (lo <=? runLength p s); [|reflexivity].
        destruct (k false (drop (runLength p s) s)); reflexivity.
    + cbn [drop]. destruct lo; [|reflexivity].
      rewrite (sequel_anywhere b false). reflexivity.
Qed.

End Committed.

Lemma search_terms_anchored r s :
  search_terms (Bol :: r) true s = pair 0 <$> match_terms (Bol :: r) true s.
Proof.
  assert (∀ t, search_terms (Bol :: r) false t = None) as Hn.
  { induction t as [|c t IH]; [reflexivity|]. cbn [search_terms match_terms].
    rewrite IH. reflexivity. }
  destruct s as [|c s]; cbn [search_terms];
    destruct (match_terms (Bol :: r) true _); try reflexivity.
  rewrite Hn. reflexivity.
Qed.

Lemma runLength_all p s : forallb p s = true → runLength p s = length s.
Proof.
  induction s as [|c s IH]; [reflexivity|]. cbn.
  intros [Hc Hs]%andb_true_iff. rewrite Hc, (IH Hs). reflexivity.
Qed.

Lemma runLength_stop p m c s :
  forallb p m = true → p c = false → runLength p (m ++ c :: s) = length m.
Proof.
  intros Hm Hc. induction m as [|x m IH]; cbn.
  - rewrite Hc. reflexivity.
  - cbn in Hm. apply andb_true_iff in Hm as [Hx Hm]. rewrite Hx, (IH Hm).
    reflexivity.
Qed.

Lemma runLength_le p s : runLength p s ≤ length s.
Proof. induction s as [|c s IH]; cbn; [lia|]. destruct (p c); cbn; lia. Qed.

Lemma take_runLength p s : forallb p (take (runLength p s) s) = true.
Proof.
  induction s as [|c s IH]; [reflexivity|]. cbn [runLength].
  destruct (p c) eqn:Hc; [|reflexivity]. cbn. rewrite Hc. exact IH.
Qed.

(** ** The data url *)

(** The pattern on a url, term by term. *)
Lemma match_data_url url :
  match_terms Net.re_data_url true url =
  if startsWith url (lit "data:") then
    let r1 := drop 5 url in
    let n1 := runLength Net.isNotSemicolon r1 in
    if (1 <=? n1) && startsWith (drop n1 r1) (lit ";base64,") then
      let r3 := drop 8 (drop n1 r1) in
      let n2 := runLength Net.isNotLineTerminator r3 in
      if (1 <=? n2) && (n2 =? length r3)
      then Some (0 :: replicate 5 1 ++ n1 :: replicate 8 1 ++ [n2; 0])
      else None
    else None
  else None.
Proof.
  unfold Net.re_data_url. cbn [app match_terms]. unfold lits.
  rewrite match_terms_lits.
  destruct (startsWith url (lit "data:")); [|reflexivity].
  change (length (lit "data:")) with 5. cbn zeta.
  set (r1 := drop 5 url). cbn [match_terms].
  rewrite (rep_terms_committed Net.isNotSemicolon).
  - set (n1 := runLength Net.isNotSemicolon r1).
    destruct (1 <=? n1); [|reflexivity]. cbn [andb].
    rewrite match_terms_lits.
    destruct (startsWith (drop n1 r1) (lit ";base64,")); [|reflexivity].
    change (length (lit ";base64,")) with 8.
    set (r3 := drop 8 (drop n1 r1)). cbn [match_terms].
    rewrite (rep_terms_committed Net.isNotLineTerminator).
    + set (n2 := runLength Net.isNotLineTerminator r3).
      destruct (1 <=? n2); [|reflexivity]. cbn [andb].
      destruct (Nat.eqb_spec n2 (length r3)) as [E|E].
      * rewrite E, drop_all. reflexivity.
      * assert (drop n2 r3 ≠ []) as Hd.
        { intros Hd. apply (f_equal length) in Hd. rewrite length_drop in Hd.
          pose proof (runLength_le Net.isNotLineTerminator r3). cbn in Hd.
          fold n2 in H. lia. }
        destruct (drop n2 r3); [done | reflexivity].
    + intros b c s _. reflexivity.
    + intros b b' s. destruct s; reflexivity.
  - intros b c s Hc. rewrite match_terms_lits.
    unfold Net.isNotSemicolon in Hc. apply negb_true_iff in Hc.
    change (lit ";base64,") with (59%N :: lit "base64,"). cbn [startsWith].
    rewrite Hc. reflexivity.
  - intros b b' s. rewrite !match_terms_lits. reflexivity.
Qed.

Lemma fetch_data_url fetch url :
  startsWith url (lit "data:") = true →
  Net.fetchImageAsBase64 fetch url =
  let r1 := drop 5 url in
  let n1 := runLength Net.isNotSemicolon r1 in
  let r3 := drop 8 (drop n1 r1) in
  if (1 <=? n1) && startsWith (drop n1 r1) (lit ";base64,")
     && (1 <=? length r3) && forallb Net.isNotLineTerminator r3
  then Some (take n1 r1, r3)
  else None.
Proof.
  intros Hd. unfold Net.fetchImageAsBase64. rewrite Hd.
  unfold Net.re_data_url at 1. cbn [app]. rewrite search_terms_anchored.
  fold (Net.re_data_url). rewrite match_data_url, Hd. cbn zeta.
  set (r1 := drop 5 url). set (n1 := runLength Net.isNotSemicolon r1).
  destruct ((1 <=? n1) && startsWith (drop n1 r1) (lit ";base64,"));
    [|reflexivity]. cbn [andb].
  set (r3 := drop 8 (drop n1 r1)).
  destruct (forallb Net.isNotLineTerminator r3) eqn:Hall.
  - rewrite (runLength_all _ _ Hall), Nat.eqb_refl, !andb_true_r.
    destruct (1 <=? length r3); [|reflexivity].
    cbn [fmap option_fmap option_map]. unfold termText.
    cbn [replicate app lookup list_lookup default from_option id take sum_list
         sum_list_with Nat.add].
    f_equal. f_equal.
    assert (r3 = drop (S (S (S (S (S (n1 + 8)))))) url) as <-
      by (unfold r3, r1; rewrite !drop_drop; f_equal).
    apply firstn_all.
  - rewrite andb_false_r.
    destruct (Nat.eqb_spec (runLength Net.isNotLineTerminator r3) (length r3))
      as [E|E]; [|rewrite andb_false_r; reflexivity].
    pose proof (take_runLength Net.isNotLineTerminator r3) as Ht.
    rewrite E, firstn_all, Hall in Ht. discriminate.
Qed.

(** X9.  A url that starts with [data:] is decoded without the network: the
    result is a mime type and data exactly when the url is [data:], a
    non-empty mime type without semicolon, [;base64,] and non-empty data
    without line terminator; what the network would answer plays no part. *)
Theorem data_url_decoded (fetch : jsstring → Net.fetched) (url m d : jsstring) :
  startsWith url (lit "data:") = true →
  (Net.fetchImageAsBase64 fetch url = Some (m, d) ↔
   url = lit "data:" ++ m ++ lit ";base64," ++ d
   ∧ m ≠ [] ∧ forallb Net.isNotSemicolon m = true
   ∧ d ≠ [] ∧ forallb Net.isNotLineTerminator d = true)
  ∧ ∀ fetch', Net.fetchImageAsBase64 fetch' url = Net.fetchImageAsBase64 fetch url.
Proof.
  intros Hd. split; [|intros fetch'; rewrite !fetch_data_url by exact Hd; reflexivity].
  rewrite (fetch_data_url fetch url Hd). cbn zeta.
  set (r1 := drop 5 url). set (n1 := runLength Net.isNotSemicolon r1).
  set (r3 := drop 8 (drop n1 r1)). split.
  - destruct ((1 <=? n1) && startsWith (drop n1 r1) (lit ";base64,")
              && (1 <=? length r3) && forallb Net.isNotLineTerminator r3) eqn:E;
      [|discriminate].
    intros [= <- <-].
    apply andb_true_iff in E as [E Hall]. apply andb_true_iff in E as [E Hlen].
    apply andb_true_iff in E as [Hn Hs]. apply Nat.leb_le in Hn, Hlen.
    split.
    + rewrite (startsWith_prefix _ _ Hd) at 1. f_equal.
      change (drop (length (lit "data:")) url) with r1.
      rewrite <- (take_drop n1 r1) at 1. f_equal.
      rewrite (startsWith_prefix _ _ Hs) at 1. reflexivity.
    + split.
      { intros Hm. apply (f_equal length) in Hm. rewrite length_take in Hm.
        pose proof (runLength_le Net.isNotSemicolon r1). fold n1 in H.
        cbn in Hm. lia. }
      split; [apply take_runLength|].
      split; [|exact Hall]. intros Hr. rewrite Hr in Hlen. cbn in Hlen. lia.
  - intros (-> & Hm & Hms & Hdne & Hds).
    assert (r1 = m ++ lit ";base64," ++ d) as Hr1 by reflexivity.
    assert (n1 = length m) as Hn1.
    { unfold n1. rewrite Hr1. apply runLength_stop; [exact Hms | reflexivity]. }
    assert (drop n1 r1 = lit ";base64," ++ d) as Hdrop.
    { rewrite Hn1, Hr1. apply drop_app_length. }
    assert (r3 = d) as Hr3 by (unfold r3; rewrite Hdrop; reflexivity).
    rewrite Hdrop, Hr3, startsWith_app, Hds, Hn1, Hr1, take_app_length.
    replace (1 <=? length m) with true by (destruct m; done).
    replace (1 <=? length d) with true by (destruct d; done).
    reflexivity.
Qed.

Lemma data_url_decoded_witness :
  Net.fetchImageAsBase64 (answering Net.Rejected)
    (lit "data:image/png;base64,iVBORw0KGgo=")
  = Some (lit "image/png", lit "iVBORw0KGgo=").
Proof.
  destruct (data_url_decoded (answering Net.Rejected)
              (lit "data:image/png;base64,iVBORw0KGgo=")
              (lit "image/png") (lit "iVBORw0KGgo=")) as [[_ H] _];
    [reflexivity|].
  apply H. repeat split; try reflexivity; discriminate.
Defined.

(** ** The image fetched from the network *)

Lemma base64_ind (P : list N → Prop) :
  P [] → (∀ a, P [a]) → (∀ a b, P [a; b]) →
  (∀ a b c rest, P rest → P (a :: b :: c :: rest)) →
  ∀ s, P s.
Proof.
  intros H0 H1 H2 H3. fix IH 1. intros [|a [|b [|c rest]]].
  - exact H0.
  - apply H1.
  - apply H2.
  - apply H3, IH.
Qed.

Lemma base64_length s : length (Net.base64 s) = 4 * ((length s + 2) / 3).
Proof.
  induction s as [| | |a b c rest IH] using base64_ind; try reflexivity.
  cbn [Net.base64 length app]. rewrite IH.
  replace (S (S (S (length rest))) + 2) with (length rest + 2 + 1 * 3) by lia.
  rewrite Nat.div_add by lia. lia.
Qed.

Lemma base64Digit_unit n : isBase64Unit (Net.base64Digit n) = true.
Proof. unfold isBase64Unit, Net.base64Digit. char_facts. Qed.

Lemma base64_units s : forallb isBase64Unit (Net.base64 s) = true.
Proof.
  induction s as [| | |a b c rest IH] using base64_ind;
    cbn [Net.base64 forallb app]; rewrite ?base64Digit_unit, ?IH; reflexivity.
Qed.

Lemma binaryString_octets bytes :
  forallb (λ c, c <=? 255)%N (Net.binaryString bytes) = true.
Proof.
  unfold Net.binaryString. induction bytes as [|b bytes IH]; [reflexivity|].
  cbn [fmap list_fmap forallb]. fold (Byte.to_N <$> bytes). rewrite IH, andb_true_r.
  apply N.leb_le, Byte.to_N_bounded.
Qed.

Lemma btoa_binaryString bytes :
  Net.btoa (Net.binaryString bytes) = Returns (Net.base64 (Net.binaryString bytes)).
Proof. unfold Net.btoa. rewrite binaryString_octets. reflexivity. Qed.

Lemma network_image_iff (fetch : jsstring → Net.fetched)
    (url mimeType data : jsstring) :
  startsWith url (lit "data:") = false →
  (Net.fetchImageAsBase64 fetch url = Some (mimeType, data) ↔
   ∃ type bytes,
     fetch url = Net.Response true type bytes
     ∧ (N.of_nat (length bytes) ≤ 15728640)%N
     ∧ mimeType = orElse type (lit "image/png")
     ∧ data = Net.base64 (Net.binaryString bytes)).
Proof.
  intros Hd. unfold Net.fetchImageAsBase64. rewrite Hd.
  destruct (fetch url) as [|ok type bytes].
  - split; [discriminate|]. intros (? & ? & ? & _). discriminate.
  - destruct ok; cbn [negb].
    + rewrite btoa_binaryString.
      change (15 * 1024 * 1024)%N with 15728640%N.
      destruct (N.ltb_spec 15728640 (N.of_nat (length bytes))) as [L|L].
      * split; [discriminate|]. intros (? & ? & [= <- <-] & Hle & _). lia.
      * split.
        -- intros [= <- <-]. exists type, bytes. done.
        -- intros (? & ? & [= <- <-] & _ & -> & ->). reflexivity.
    + split; [discriminate|]. intros (? & ? & ? & _). discriminate.
Qed.

(** X10.  For any other url the result is not null exactly when the response
    is ok and its body has at most 15 * 1024 * 1024 bytes; the mime type is
    the body's type, or [image/png] when that is empty, and the data is the
    base64 text of the bytes: btoa never throws on them. *)
Theorem network_image_fetched (fetch : jsstring → Net.fetched)
    (url mimeType data : jsstring) :
  startsWith url (lit "data:") = false →
  (Net.fetchImageAsBase64 fetch url = Some (mimeType, data) ↔
   ∃ type bytes,
     fetch url = Net.Response true type bytes
     ∧ (N.of_nat (length bytes) ≤ 15728640)%N
     ∧ mimeType = orElse type (lit "image/png")
     ∧ data = Net.base64 (Net.binaryString bytes)).
Proof. apply network_image_iff. Qed.

Lemma network_image_fetched_witness :
  Net.fetchImageAsBase64
    (answering (Net.Response true [] [Byte.x4d; Byte.x61; Byte.x6e]))
    (lit "https://example.org/a")
  = Some (lit "image/png", lit "TWFu").
Proof.
  apply network_image_fetched; [reflexivity|].
  exists [], [Byte.x4d; Byte.x61; Byte.x6e].
  split; [reflexivity|]. split; [cbn; lia|]. split; reflexivity.
Defined.

(** X11.  The data of an image fetched from the network consists of base64
    digits and padding, has a length that is a multiple of 4 and at most
    20971520 units, and comes with a mime type that is not empty. *)
Theorem network_image_payload (fetch : jsstring → Net.fetched)
    (url mimeType data : jsstring) :
  startsWith url (lit "data:") = false →
  Net.fetchImageAsBase64 fetch url = Some (mimeType, data) →
  mimeType ≠ []
  ∧ forallb isBase64Unit data = true
  ∧ length data `mod` 4 = 0
  ∧ (N.of_nat (length data) ≤ 20971520)%N.
Proof.
  intros Hd H. apply (network_image_iff _ _ _ _ Hd) in H
    as (type & bytes & _ & Hle & -> & ->).
  split; [destruct type; done|]. split; [apply base64_units|].
  rewrite base64_length. split.
  - rewrite Nat.mul_comm. apply Nat.Div0.mod_mul.
  - unfold Net.binaryString. rewrite length_fmap.
    pose proof (Nat.div_mod_eq (length bytes + 2) 3) as Hq.
    pose proof (Nat.mod_upper_bound (length bytes + 2) 3) as Hr.
    set (q := (length bytes + 2) / 3) in *.
    set (r := (length bytes + 2) `mod` 3) in *. lia.
Qed.

Lemma network_image_payload_witness :
  lit "image/gif" ≠ [] ∧ forallb isBase64Unit (lit "TWE=") = true
  ∧ length (lit "TWE=") `mod` 4 = 0 ∧ (N.of_nat (length (lit "TWE=")) ≤ 20971520)%N.
Proof.
  apply (network_image_payload
           (answering (Net.Response true (lit "image/gif") [Byte.x4d; Byte.x61]))
           (lit "https://example.org/a")); reflexivity.
Defined.

(** ** Trimming *)

Lemma trimStart_dropLeading s : trimStart s = dropLeading isWhiteSpace s.
Proof.
  induction s as [|c s IH]; [reflexivity|]. cbn. rewrite IH. reflexivity.
Qed.

Lemma dropLeading_snoc p l c :
  dropLeading p (l ++ [c]) =
  if forallb p l then (if p c then [] else [c]) else dropLeading p l ++ [c].
Proof.
  induction l as [|x l IH]; [reflexivity|]. cbn [app dropLeading forallb].
  destruct (p x); [exact IH | reflexivity].
Qed.

Lemma rev_dropLeading_rev p s : rev (dropLeading p (rev s)) = dropTrailing p s.
Proof.
  induction s as [|c s IH]; [reflexivity|]. cbn [rev].
  rewrite dropLeading_snoc, forallb_rev, dropTrailing_cons. cbn [forallb].
  destruct (forallb p s) eqn:E.
  - rewrite andb_true_r, (proj2 (dropTrailing_nil p s) E).
    destruct (p c); reflexivity.
  - rewrite andb_false_r, rev_app_distr, IH. reflexivity.
Qed.

Lemma trim_drop s :
  trim s = dropTrailing isWhiteSpace (dropLeading isWhiteSpace s).
Proof.
  unfold trim, trimEnd. rewrite !trimStart_dropLeading. apply rev_dropLeading_rev.
Qed.

Lemma trim_idem s : trim (trim s) = trim s.
Proof.
  rewrite !trim_drop.
  rewrite (dropLeading_dropTrailing isWhiteSpace (dropLeading isWhiteSpace s))
    by apply dropLeading_idem.
  apply dropTrailing_idem.
Qed.

Lemma dropLeading_dropTrailing_comm p s :
  dropLeading p (dropTrailing p s) = dropTrailing p (dropLeading p s).
Proof.
  induction s as [|c s IH]; [reflexivity|]. rewrite dropTrailing_cons.
  cbn [forallb dropLeading]. destruct (p c) eqn:Hc; cbn [andb].
  - destruct (forallb p s) eqn:Hs.
    + rewrite (dropLeading_all p s Hs). reflexivity.
    + cbn [dropLeading]. rewrite Hc. exact IH.
  - cbn [dropLeading]. rewrite Hc, dropTrailing_cons. cbn [forallb].
    rewrite Hc. reflexivity.
Qed.

Lemma dropLeading_app_all p a s :
  forallb p a = true → dropLeading p (a ++ s) = dropLeading p s.
Proof.
  induction a as [|x a IH]; [reflexivity|]. cbn.
  intros [Hx Ha]%andb_true_iff. rewrite Hx. apply IH, Ha.
Qed.

Lemma dropTrailing_app_all p s b :
  forallb p b = true → dropTrailing p (s ++ b) = dropTrailing p s.
Proof.
  intros Hb. induction s as [|c s IH].
  - apply dropTrailing_nil, Hb.
  - cbn [app]. rewrite !dropTrailing_cons, IH. cbn [forallb].
    rewrite forallb_app, Hb, andb_true_r. reflexivity.
Qed.

Lemma trim_padded a s b :
  allWhiteSpace a = true → allWhiteSpace b = true → trim (a ++ s ++ b) = trim s.
Proof.
  intros Ha Hb. rewrite !trim_drop, (dropLeading_app_all _ a _ Ha).
  rewrite <- !dropLeading_dropTrailing_comm, (dropTrailing_app_all _ s b Hb).
  reflexivity.
Qed.

Lemma dropLeading_split p s :
  ∃ a, s = a ++ dropLeading p s ∧ forallb p a = true.
Proof.
  induction s as [|c s (a & Ha & Hp)]; [exists []; done|]. cbn [dropLeading].
  destruct (p c) eqn:Hc; [|exists []; done].
  exists (c :: a). cbn. rewrite Hc, Hp, <- Ha. done.
Qed.

Lemma dropTrailing_split p s :
  ∃ b, s = dropTrailing p s ++ b ∧ forallb p b = true.
Proof.
  induction s as [|c s (b & Hb & Hp)]; [exists []; done|].
  rewrite dropTrailing_cons. destruct (forallb p (c :: s)) eqn:E.
  - exists (c :: s). done.
  - exists b. cbn. rewrite <- Hb. done.
Qed.

Lemma trim_split s :
  ∃ a b, s = a ++ trim s ++ b ∧ allWhiteSpace a = true ∧ allWhiteSpace b = true.
Proof.
  destruct (dropLeading_split isWhiteSpace s) as (a & Ha & Hpa).
  destruct (dropTrailing_split isWhiteSpace (dropLeading isWhiteSpace s))
    as (b & Hb & Hpb).
  exists a, b. rewrite trim_drop, <- Hb, <- Ha. done.
Qed.

Lemma trim_nonblank_edges s c k :
  trim s = c :: k →
  isWhiteSpace c = false ∧ ∀ z, last (c :: k) = Some z → isWhiteSpace z = false.
Proof.
  intros H. split.
  - assert (dropLeading isWhiteSpace (c :: k) = c :: k) as Hl.
    { rewrite <- H, trim_drop. apply dropLeading_dropTrailing, dropLeading_idem. }
    cbn [dropLeading] in Hl. destruct (isWhiteSpace c); [|reflexivity].
    pose proof (dropLeading_length isWhiteSpace k) as Hlen.
    rewrite Hl in Hlen. cbn in Hlen. lia.
  - intros z Hz. apply (dropTrailing_fixed_last isWhiteSpace (c :: k)); [|exact Hz].
    rewrite <- H, trim_drop. apply dropTrailing_idem.
Qed.

(** ** Quotes and white space around the text *)

Lemma sanitizeFilename_by_step1 s s' :
  step1 s = step1 s' → sanitizeFilename s = sanitizeFilename s'.
Proof.
  intros H. rewrite !sanitizeFilename_spec. unfold sanitize, steps.
  rewrite H. reflexivity.
Qed.

Lemma filter_quotes_padding a :
  forallb (λ c, isWhiteSpace c || isQuote c) a = true →
  allWhiteSpace (List.filter (λ c, negb (isQuote c)) a) = true.
Proof.
  induction a as [|c a IH]; [reflexivity|]. cbn [forallb List.filter].
  intros [Hc Ha]%andb_true_iff. destruct (isQuote c) eqn:Hq; cbn [negb].
  - apply IH, Ha.
  - rewrite orb_false_r in Hc. unfold allWhiteSpace in *. cbn [forallb].
    rewrite Hc, (IH Ha). reflexivity.
Qed.

(** X12.  Quote characters and white space around the text do not change the
    result of the sanitizer; in particular trimming the text first, as
    getAIFilename does, changes nothing. *)
Theorem sanitizeFilename_ignores_wrapping :
  (∀ a s b,
     forallb (λ c, isWhiteSpace c || isQuote c) a = true →
     forallb (λ c, isWhiteSpace c || isQuote c) b = true →
     sanitizeFilename (a ++ s ++ b) = sanitizeFilename s)
  ∧ (∀ s, sanitizeFilename (trim s) = sanitizeFilename s).
Proof.
  assert (∀ a s b,
     forallb (λ c, isWhiteSpace c || isQuote c) a = true →
     forallb (λ c, isWhiteSpace c || isQuote c) b = true →
     sanitizeFilename (a ++ s ++ b) = sanitizeFilename s) as Hwrap.
  { intros a s b Ha Hb. apply sanitizeFilename_by_step1. unfold step1.
    rewrite !List.filter_app.
    apply trim_padded; apply filter_quotes_padding; assumption. }
  split; [exact Hwrap|]. intros s.
  destruct (trim_split s) as (a & b & Hs & Ha & Hb).
  rewrite Hs at 2. symmetry. apply Hwrap.
  - revert Ha. apply forallb_impl. intros c ->. reflexivity.
  - revert Hb. apply forallb_impl. intros c ->. reflexivity.
Qed.

Lemma sanitizeFilename_ignores_wrapping_witness :
  sanitizeFilename (lit " `" ++ lit "Red Fox" ++ lit "` ")
  = sanitizeFilename (lit "Red Fox").
Proof.
  exact (proj1 sanitizeFilename_ignores_wrapping (lit " `") (lit "Red Fox")
           (lit "` ") eq_refl eq_refl).
Defined.

(** ** The key saved in the popup *)

Lemma handle_keeps_key_wellFormed e pg :
  keyWellFormed (Page.sync pg) → keyWellFormed (Page.sync (Page.handle e pg)).
Proof.
  intros H. destruct e as [checked|input]; [exact H|]. cbn [Page.handle].
  destruct (trim input) as [|c k] eqn:E; [exact H|].
  unfold keyWellFormed. cbn [Page.sync Sync.storedApiKey].
  split; [done|]. rewrite <- E. apply trim_idem.
Qed.

Lemma handleAll_snoc es e pg :
  Page.handleAll (es ++ [e]) pg = Page.handle e (Page.handleAll es pg).
Proof.
  revert pg. induction es as [|x es IH]; intros pg; [reflexivity|].
  cbn [app Page.handleAll]. apply IH.
Qed.

(** X13.  After any series of toggles and save clicks the stored key is the
    trimmed text of the last save click whose text was not blank, and the key
    stored before when there was none: a blank text is never stored, and a
    stored key has no white space at either end. *)
Theorem popup_key_trimmed (es : list Page.event) (pg : Page.page) :
  let nonBlank := List.filter (λ k, negb (bool_decide (k = [])))
                    (trim <$> Page.savedInputs es) in
  Sync.storedApiKey (Page.sync (Page.handleAll es pg))
    = match last nonBlank with
      | Some k => Some k
      | None => Sync.storedApiKey (Page.sync pg)
      end
  ∧ (keyWellFormed (Page.sync pg) →
     keyWellFormed (Page.sync (Page.handleAll es pg))).
Proof.
  cbn zeta. induction es as [|e es [IH1 IH2]] using rev_ind; [done|].
  rewrite handleAll_snoc. split.
  - unfold Page.savedInputs in *. rewrite omap_app, fmap_app, List.filter_app.
    destruct e as [checked|input]; cbn [omap list_omap fmap list_fmap List.filter].
    + rewrite app_nil_r. exact IH1.
    + cbn [Page.handle]. destruct (trim input) as [|c k]; cbn.
      * rewrite app_nil_r. exact IH1.
      * rewrite last_snoc. reflexivity.
  - intros H. apply handle_keeps_key_wellFormed, IH2, H.
Qed.

Lemma popup_key_trimmed_witness :
  keyWellFormed
    (Page.sync (Page.handleAll [Page.Save (lit "  "); Page.Save (lit " k1 ");
                                Page.Toggle false]
                  (Page.mkPage Sync.fresh None))).
Proof.
  exact (proj2 (popup_key_trimmed _ (Page.mkPage Sync.fresh None)) I).
Defined.

(** ** The age label and the markup of a history item *)

Lemma timeAgo_cases (now timestamp : Z) :
  timeAgo now timestamp = lit "Just now"
  ∨ (∃ n, (1 ≤ n ≤ 59)%Z ∧ timeAgo now timestamp = numberToString n ++ lit "m ago")
  ∨ (∃ n, (1 ≤ n ≤ 23)%Z ∧ timeAgo now timestamp = numberToString n ++ lit "h ago")
  ∨ (∃ n, (1 ≤ n)%Z ∧ timeAgo now timestamp = numberToString n ++ lit "d ago").
Proof.
  unfold timeAgo. cbn zeta. set (seconds := ((now - timestamp) / 1000)%Z).
  destruct (Z.ltb_spec seconds 60) as [|Hs]; [left; reflexivity|]. right.
  destruct (Z.ltb_spec (seconds / 60) 60) as [Hm|Hm].
  { left. exists (seconds / 60)%Z. split; [|reflexivity].
    split; [apply Z.div_le_lower_bound; lia | lia]. }
  right. destruct (Z.ltb_spec (seconds / 60 / 60) 24) as [Hh|Hh].
  { left. exists (seconds / 60 / 60)%Z. split; [|reflexivity].
    split; [apply Z.div_le_lower_bound; lia | lia]. }
  right. exists (seconds / 60 / 60 / 24)%Z. split; [|reflexivity].
  apply Z.div_le_lower_bound; lia.
Qed.

(** X14.  The age label is [Just now], or 1 to 59 minutes, or 1 to 23 hours,
    or 1 or more days: the number shown is never zero. *)
Theorem timeAgo_units (now timestamp : Z) :
  timeAgo now timestamp = lit "Just now"
  ∨ (∃ n, (1 ≤ n ≤ 59)%Z ∧ timeAgo now timestamp = numberToString n ++ lit "m ago")
  ∨ (∃ n, (1 ≤ n ≤ 23)%Z ∧ timeAgo now timestamp = numberToString n ++ lit "h ago")
  ∨ (∃ n, (1 ≤ n)%Z ∧ timeAgo now timestamp = numberToString n ++ lit "d ago").
Proof. apply timeAgo_cases. Qed.

Lemma occurrences_app c a b :
  occurrences c (a ++ b) = occurrences c a + occurrences c b.
Proof. unfold occurrences. rewrite List.filter_app, length_app. reflexivity. Qed.

Lemma occurrences_none c (p : N → bool) s :
  p c = false → forallb p s = true → occurrences c s = 0.
Proof.
  intros Hc. unfold occurrences. induction s as [|x s IH]; [reflexivity|].
  cbn [forallb List.filter]. intros [Hx Hs]%andb_true_iff.
  destruct (N.eqb_spec c x) as [->|_]; [congruence | apply IH, Hs].
Qed.

Lemma string_of_uint_digits d :
  forallb isDigit (lit (NilEmpty.string_of_uint d)) = true.
Proof.
  induction d as [|d IH|d IH|d IH|d IH|d IH|d IH|d IH|d IH|d IH|d IH];
    [reflexivity|..]; cbn [NilEmpty.string_of_uint]; unfold lit in *;
    cbn [list_ascii_of_string List.map forallb]; rewrite IH; reflexivity.
Qed.

Lemma numberToString_units z :
  forallb (λ c, isDigit c || isHyphen c) (numberToString z) = true.
Proof.
  unfold numberToString. destruct (Z.to_int z) as [d|d]; cbn [NilEmpty.string_of_int].
  - generalize (string_of_uint_digits d). apply forallb_impl. intros c ->. reflexivity.
  - unfold lit. cbn [list_ascii_of_string List.map forallb]. apply andb_true_iff.
    split; [reflexivity|]. fold (lit (NilEmpty.string_of_uint d)).
    generalize (string_of_uint_digits d). apply forallb_impl. intros c ->. reflexivity.
Qed.

Lemma timeAgo_no_brackets now timestamp c :
  c = 60%N ∨ c = 62%N → occurrences c (timeAgo now timestamp) = 0.
Proof.
  intros Hc.
  assert (∀ n, occurrences c (numberToString n) = 0) as Hn.
  { intros n. apply (occurrences_none c (λ c, isDigit c || isHyphen c));
      [destruct Hc as [->| ->]; reflexivity | apply numberToString_units]. }
  destruct (timeAgo_cases now timestamp) as [H|[(n&_&H)|[(n&_&H)|(n&_&H)]]];
    rewrite H, ?occurrences_app, ?Hn; destruct Hc as [->| ->]; reflexivity.
Qed.

Lemma escapeHtml_no_brackets s c :
  c = 60%N ∨ c = 62%N → occurrences c (Page.escapeHtml s) = 0.
Proof.
  intros Hc. unfold Page.escapeHtml.
  induction s as [|x s IH]; [reflexivity|]. cbn [flat_map].
  rewrite occurrences_app, IH, Nat.add_0_r. unfold Page.escapeUnit.
  destruct (N.eqb_spec x 38); [destruct Hc as [->| ->]; reflexivity|].
  destruct (N.eqb_spec x 160); [destruct Hc as [->| ->]; reflexivity|].
  destruct (N.eqb_spec x 60); [destruct Hc as [->| ->]; reflexivity|].
  destruct (N.eqb_spec x 62); [destruct Hc as [->| ->]; reflexivity|].
  unfold occurrences. cbn [List.filter].
  destruct (N.eqb_spec c x) as [->|_]; [|reflexivity].
  destruct Hc; congruence.
Qed.

(** X15.  Whatever the names of a history event are, the markup set for its
    item has the six tags of the template and no other: the escaped names
    and the age label contain no angle bracket. *)
Theorem history_item_markup (now : Z) (item : RenameEvent) :
  occurrences 60 (Page.itemMarkup now item) = 6
  ∧ occurrences 62 (Page.itemMarkup now item) = 6
  ∧ occurrences 60 (Page.escapeHtml (original item)) = 0
  ∧ occurrences 62 (Page.escapeHtml (original item)) = 0.
Proof.
  unfold Page.itemMarkup. cbn zeta. rewrite !occurrences_app.
  rewrite !(escapeHtml_no_brackets _ 60), !(escapeHtml_no_brackets _ 62),
    (timeAgo_no_brackets _ _ 60), (timeAgo_no_brackets _ _ 62) by auto.
  repeat split; reflexivity.
Qed.

(** ** The context menu *)

Lemma onClicked_outcome h info pending :
  ContextMenu.onClicked h info pending = ([], pending)
  ∨ (ContextMenu.menuItemId info = lit "ai-rename-image"
     ∧ apiKey (settings h) = []
     ∧ ContextMenu.onClicked h info pending
       = ([ContextMenu.BadgeText (lit "!")], pending))
  ∨ ∃ url mimeType data text,
      ContextMenu.menuItemId info = lit "ai-rename-image"
      ∧ apiKey (settings h) ≠ []
      ∧ ContextMenu.srcUrl info = Some url
      ∧ fetchImageAsBase64 h url = Some (mimeType, data)
      ∧ generate h data mimeType (apiKey (settings h)) = Body (Some text)
      ∧ let f := sanitizeFilename (trim text)
                 ++ toString h (vOrElse (getExtensionFromMime (Some mimeType))
                                        (VString (lit ".png"))) in
        ContextMenu.onClicked h info pending
        = ([ContextMenu.Download url f], <[url := f]> pending).
Proof.
  unfold ContextMenu.onClicked.
  destruct (bool_decide (ContextMenu.menuItemId info = lit "ai-rename-image"))
    eqn:Hid; [|left; reflexivity].
  apply bool_decide_eq_true in Hid. cbn [negb].
  destruct (bool_decide (apiKey (settings h) = [])) eqn:Hk.
  { apply bool_decide_eq_true in Hk. right. left. done. }
  apply bool_decide_eq_false in Hk.
  destruct (ContextMenu.srcUrl info) as [[|u rl]|] eqn:Hu; try (left; reflexivity).
  destruct (fetchImageAsBase64 h (u :: rl)) as [[mimeType data]|] eqn:Hf;
    [|left; reflexivity].
  unfold getAIFilename.
  destruct (generate h data mimeType (apiKey (settings h))) as [| |[[|c t]|]] eqn:Hg;
    try (left; reflexivity).
  destruct (sanitizeFilename (trim (c :: t))) as [|x n] eqn:Es.
  { pose proof (sanitizeFilename_wellFormed (trim (c :: t))) as (_&_&_&_&_&Hne).
    rewrite Es in Hne. done. }
  right. right. exists (u :: rl), mimeType, data, (c :: t). rewrite Es. done.
Qed.

(** X16.  When a click on the menu starts a download, it is the only effect;
    the url is the image's, the key is not empty, the name is a well-formed
    stem followed by the extension found for the fetched mime type, and the
    pending map holds that name under the url.  Off the names the table
    object inherits, the extension is a string of 4 or 5 units that starts
    with a dot. *)
Theorem contextMenu_download (h : Host) (info : ContextMenu.OnClickData)
    (pending : gmap jsstring jsstring) (url f : jsstring) :
  ContextMenu.Download url f ∈ (ContextMenu.onClicked h info pending).1 →
  ContextMenu.onClicked h info pending
    = ([ContextMenu.Download url f], <[url := f]> pending)
  ∧ ContextMenu.srcUrl info = Some url
  ∧ apiKey (settings h) ≠ []
  ∧ ∃ mimeType data stem,
      fetchImageAsBase64 h url = Some (mimeType, data)
      ∧ wellFormedName stem
      ∧ f = stem ++ toString h (vOrElse (getExtensionFromMime (Some mimeType))
                                        (VString (lit ".png")))
      ∧ (Object_prototype !! mimeType = None →
         ∃ e, f = stem ++ e ∧ head e = Some 46%N ∧ 4 ≤ length e ≤ 5).
Proof.
  destruct (onClicked_outcome h info pending)
    as [H|[(_ & _ & H)|(u & mimeType & data & text & _ & Hk & Hu & Hf & _ & H)]].
  - rewrite H. cbn. intros Hin. apply elem_of_nil in Hin. done.
  - rewrite H. cbn. intros Hin. apply list_elem_of_singleton in Hin. discriminate.
  - cbn zeta in H. rewrite H. cbn [fst]. intros Hin.
    apply list_elem_of_singleton in Hin. injection Hin as -> ->.
    split; [reflexivity|]. split; [exact Hu|]. split; [exact Hk|].
    exists mimeType, data, (sanitizeFilename (trim text)).
    split; [exact Hf|]. split; [apply sanitizeFilename_wellFormed|].
    split; [reflexivity|]. intros Hp.
    destruct (getExtensionFromMime_table (Some mimeType) Hp) as (e & He & Hrow).
    rewrite He. exists e.
    assert (head e = Some 46%N ∧ 4 ≤ length e ≤ 5) as [Hh Hl].
    { destruct Hrow as [Hrow|[_ ->]]; [|split; [reflexivity | cbn; lia]].
      unfold mimeRows in Hrow.
      repeat (apply elem_of_cons in Hrow as [Hrow|Hrow];
              [injection Hrow as _ ->; split; [reflexivity | cbn; lia]|]).
      apply elem_of_nil in Hrow. done. }
    split; [|split; assumption].
    destruct e as [|x e]; [discriminate Hh | reflexivity].
Qed.


(** ** What the popup lists *)

(** X18.  After a series of renames the popup shows nothing new when there was
    none, and otherwise one item for each of the last 50 events, the latest
    first. *)
Theorem popup_lists_history (now : Z) (calls : list recordCall) :
  Page.renderHistory now (Some (getHistory (recordAll calls ∅)))
  = match calls with
    | [] => None
    | _ :: _ => Some (Page.itemMarkup now <$> take 50 (reverse (eventOf <$> calls)))
    end.
Proof.
  rewrite getHistory_recordAll. destruct calls as [|c calls]; [reflexivity|].
  destruct (take 50 (reverse (eventOf <$> c :: calls))) as [|e es] eqn:E;
    [|reflexivity].
  apply (f_equal length) in E.
  rewrite length_take, length_reverse, length_fmap in E. cbn in E. lia.
Qed.

(** ** One dot *)

Lemma word_not_dot c : isWord c = true → isDot c = false.
Proof. char_facts. Qed.

Lemma occurrences_dot_safe s : matchesSafeName s = true → occurrences 46 s = 0.
Proof. apply (occurrences_none 46 isLowerAlnumHyphen). reflexivity. Qed.

Lemma listener_extension_one_dot mime filename e :
  isImageFile mime filename = true →
  getExtension (Some filename) (Some mime) = VString e →
  occurrences 46 e = 1.
Proof.
  intros Hi. destruct (extensionOf 2 5 filename) as [m|] eqn:E.
  - rewrite (getExtension_of_filename _ _ _ E).
    destruct (extensionOf_Some _ _ _ _ E) as (pre & w & _ & -> & Hw).
    intros [= <-].
    change (asciiLower 46 :: toLowerCase w) with ([46%N] ++ toLowerCase w).
    rewrite occurrences_app.
    rewrite (occurrences_none 46 isWord (toLowerCase w)); [reflexivity..|].
    rewrite forallb_isWord_toLowerCase. unfold isExtensionTail in Hw.
    apply andb_true_iff in Hw as [_ Hw]. exact Hw.
  - apply isImageFile_iff in Hi as [Hm|Hf];
      [|destruct (extensionOf_None_not_image _ E Hf)].
    assert (extensionOf 2 5 (orEmpty (Some filename)) = None) as E'.
    { unfold orEmpty. cbn [default from_option id]. rewrite orElse_nil. exact E. }
    destruct (getExtension_by_table (Some filename) (Some mime) E'
                (image_mime_not_inherited mime Hm)) as (e' & He & Hrow & _).
    rewrite He. intros [= <-].
    destruct Hrow as [Hrow|[_ ->]]; [|reflexivity].
    unfold mimeRows in Hrow.
    repeat (apply elem_of_cons in Hrow as [Hrow|Hrow];
            [injection Hrow as _ ->; reflexivity|]).
    apply elem_of_nil in Hrow. done.
Qed.

Lemma listener_replacement_shape_aux h downloadItem local f :
  Suggest (Some f) ∈ (onDeterminingFilename h downloadItem local).1.1 →
  ∃ stem e,
    f = stem ++ e ∧ occurrences 46 e = 1 ∧ matchesSafeName stem = true
    ∧ forallb isFileNameUnit e = true.
Proof.
  destruct (listener_outcome h downloadItem local) as [H|(text & Hi & _ & _ & H)].
  - rewrite H. cbn. intros Hin. apply list_elem_of_singleton in Hin. discriminate.
  - cbn zeta in H. rewrite H. cbn [fst]. intros Hin.
    repeat (apply elem_of_cons in Hin as [Hin|Hin]; [try discriminate Hin|]);
      [|apply elem_of_nil in Hin; done].
    injection Hin as ->.
    destruct (listener_extension _ _ Hi) as (e & He & _ & _ & Hu).
    pose proof (listener_extension_one_dot _ _ e Hi He) as Hd.
    rewrite He. cbn [toString].
    exists (sanitizeFilename (trim text)), e.
    split; [reflexivity|]. split; [exact Hd|]. split; [|exact Hu].
    apply sanitizeFilename_wellFormed.
Qed.

(** X5.  A replacement the listener suggests has exactly one dot and neither a
    slash nor a backslash. *)
Theorem listener_replacement_one_dot (h : Host) (downloadItem : DownloadItem)
    (local : gmap string (list RenameEvent)) (f : jsstring) :
  Suggest (Some f) ∈ (onDeterminingFilename h downloadItem local).1.1 →
  occurrences 46 f = 1 ∧ occurrences 47 f = 0 ∧ occurrences 92 f = 0.
Proof.
  intros Hin.
  destruct (listener_replacement_shape_aux h downloadItem local f Hin)
    as (stem & e & -> & He & Hs & Hu).
  rewrite !occurrences_app, (occurrences_dot_safe stem Hs), He.
  split; [reflexivity|].
  rewrite (occurrences_none 47 isLowerAlnumHyphen stem),
    (occurrences_none 92 isLowerAlnumHyphen stem),
    (occurrences_none 47 isFileNameUnit e),
    (occurrences_none 92 isFileNameUnit e); done.
Qed.

(** ** The file names the listener accepts and resolves *)



(** X1.  A download counts as an image exactly when its mime type starts with
    [image/] or its file name ends with one of the seven image extensions
    spelled in any mix of upper and lower case. *)
Theorem isImageFile_spelled (mime filename : jsstring) :
  isImageFile mime filename = true ↔
  startsWith mime (lit "image/") = true
  ∨ ∃ pre suf, filename = pre ++ suf ∧ toLowerCase suf ∈ IMAGE_EXTENSIONS.
Proof. apply isImageFile_iff. Qed.

Lemma isImageFile_spelled_witness :
  isImageFile (lit "application/octet-stream") (lit "IMG_0042" ++ lit ".JpEg") = true.
Proof.
  apply isImageFile_spelled. right. exists (lit "IMG_0042"), (lit ".JpEg").
  split; [reflexivity|]. vm_compute. repeat constructor.
Defined.



Lemma listener_replacement_shape_witness :
  ∃ stem e,
    photoName = stem ++ e
    ∧ wellFormedName stem
    ∧ head e = Some 46%N ∧ 3 ≤ length e ≤ 6
    ∧ length photoName ≤ 66
    ∧ forallb isFileNameUnit photoName = true.
Proof.
  apply (listener_replacement_shape (namingHost photoText) photoDownload ∅).
  vm_compute. repeat constructor.
Defined.

Lemma listener_replacement_one_dot_witness :
  occurrences 46 photoName = 1 ∧ occurrences 47 photoName = 0
  ∧ occurrences 92 photoName = 0.
Proof.
  apply (listener_replacement_one_dot (namingHost photoText) photoDownload ∅).
  vm_compute. repeat constructor.
Defined.

Lemma listener_records_replacements_witness :
  getHistory (onDeterminingFilename (namingHost photoText) photoDownload ∅).1.2
  = take 50 (mkEvent (filename photoDownload) photoName
               (clock (namingHost photoText)) :: getHistory ∅).
Proof.
  apply (proj1 (listener_records_replacements (namingHost photoText)
                  photoDownload ∅)).
  vm_compute. repeat constructor.
Defined.

Lemma rename_keeps_extension_witness :
  (∃ stem, photoName = stem ++ toLowerCase (46%N :: lit "JPG") ∧ wellFormedName stem)
  ∧ ∀ mime', getExtension (Some photoName) mime'
             = VString (toLowerCase (46%N :: lit "JPG")).
Proof.
  apply (rename_keeps_extension (namingHost photoText) photoDownload ∅
           (lit "IMG_0042") (lit "JPG") photoName).
  - reflexivity.
  - cbn. lia.
  - reflexivity.
  - vm_compute. repeat constructor.
Defined.

Lemma listener_needs_key_and_switch_witness :
  (onDeterminingFilename
     (hostOf Sync.fresh (answering Net.Rejected) (λ _ _ _, HttpError) 0 (λ _, []))
     photoDownload ∅).1 = ([Suggest None], ∅).
Proof. apply listener_needs_key_and_switch. right. left. reflexivity. Defined.

Lemma contextMenu_download_witness :
  ContextMenu.onClicked (namingHost photoText) photoClick ∅
  = ([ContextMenu.Download (lit "https://example.org/IMG_0042.JPG") photoName],
     <[lit "https://example.org/IMG_0042.JPG" := photoName]> ∅).
Proof.
  apply (contextMenu_download (namingHost photoText) photoClick ∅).
  vm_compute. repeat constructor.
Defined.

